(** * The desktop shell controller ([src/main.ts])

    A shallow embedding of the Electron main-process script: the window
    life cycle, the tray controller, the IPC command router, the relaunch
    protocol and the navigation policy, followed by the properties the
    specification states about them.

    The script is event driven and single threaded.  Every handler it
    registers is embedded as a computation in a small state-and-exception
    monad over one [State] record holding what the script's closures share:
    the two life-cycle flags, the persisted store, [mainWindow], the tray
    menu, the [setImmediate] queue and a chronological trace of the calls
    made to the external collaborators. *)

From stdpp Require Import gmap strings list.
From Stdlib Require Import ZArith Ascii.

(** ** JavaScript values and plain objects *)

Module JS.

(** The values a configuration object carries over IPC.  Numbers are kept
    as integers ([NaN], the only other falsy number, is not needed). *)
Inductive value : Type :=
| Undefined
| Null
| Bool (b : bool)
| Num (n : Z)
| Str (s : string).

(** [ToBoolean]: what [if (v)] and [a && v] test. *)
Definition truthy (v : value) : bool :=
  match v with
  | Undefined | Null => false
  | Bool b => b
  | Num n => negb (n =? 0)%Z
  | Str s => negb (String.eqb s "")
  end.

(** [typeof v !== "undefined"]. *)
Definition defined (v : value) : bool :=
  match v with
  | Undefined => false
  | _ => true
  end.

(** A plain object: own enumerable string keys to values. *)
Abbreviation object := (gmap string value).

(** Property read [o.k]: a missing key reads as [undefined]. *)
Definition get (o : object) (k : string) : value :=
  default Undefined (o !! k).

(** Object spread [{ ...a, ...b }]: the keys of [b] are copied after those
    of [a], so on a shared key the value of [b] is kept. *)
Definition spread (a b : object) : object := b ∪ a.

(** [s.startsWith(p)]. *)
Definition startsWith (s p : string) : bool := String.prefix p s.

(** [xs.slice(1)]. *)
Definition slice1 {A : Type} (xs : list A) : list A := drop 1 xs.

(** [xs.concat(ys)]. *)
Definition concat {A : Type} (xs ys : list A) : list A := xs ++ ys.

(** [xs.unshift(x)], as the array it leaves behind. *)
Definition unshift {A : Type} (x : A) (xs : list A) : list A := x :: xs.

End JS.

(** ** The [URL] class of Node's [url] module

    [new URL(s)] without a base, and its [origin] getter, after the WHATWG
    URL standard.  The input is first stripped of leading and trailing C0
    controls and spaces and of every tab and newline.  The scheme is the
    text before the first colon (a letter, then letters, digits, [+], [-],
    [.]), lower-cased; without one the constructor throws.  For [http],
    [https], [ws], [wss] and [ftp] the slashes after the colon are skipped;
    the authority runs to the first [/], [\], [?] or [#]; what precedes its
    last [@] is user information; the host ends at the first colon outside
    square brackets and must not be empty; the port is decimal, at most
    65535, and dropped when it is the scheme's default.  A host in square
    brackets is an IPv6 address, parsed and written back in its shortest
    form; any other host is percent-decoded, lower-cased, refused when it
    holds a forbidden domain code point, and read as an IPv4 address when
    its last label is a number.  [file:] URLs parse their host the same
    way, other schemes parse an authority after [//] with an opaque host.
    The origin is (scheme, host, port) for the five schemes above, that of
    the wrapped [http] or [https] URL for [blob:], and opaque, serialised
    as [null], for every other scheme.

    Strings are sequences of bytes.  Host names with bytes outside ASCII
    and the validation of [xn--] labels (IDNA) are not modelled: such
    hosts are kept as they are written. *)

Module URL.

Definition code (c : ascii) : nat := nat_of_ascii c.

Definition is_upper (c : ascii) : bool := (65 <=? code c) && (code c <=? 90).
Definition is_lower (c : ascii) : bool := (97 <=? code c) && (code c <=? 122).
Definition is_digit (c : ascii) : bool := (48 <=? code c) && (code c <=? 57).
Definition is_alpha (c : ascii) : bool := is_upper c || is_lower c.

Definition lower (c : ascii) : ascii :=
  if is_upper c then ascii_of_nat (code c + 32) else c.

Fixpoint lowercase (s : string) : string :=
  match s with
  | EmptyString => EmptyString
  | String c r => String (lower c) (lowercase r)
  end.

Fixpoint all (p : ascii → bool) (s : string) : bool :=
  match s with
  | EmptyString => true
  | String c r => p c && all p r
  end.

(** [break p s]: the longest prefix of [s] with no character satisfying
    [p], and what follows it. *)
Fixpoint break (p : ascii → bool) (s : string) : string * string :=
  match s with
  | EmptyString => (EmptyString, EmptyString)
  | String c r =>
      if p c then (EmptyString, s)
      else let '(a, b) := break p r in (String c a, b)
  end.

Fixpoint drop_while (p : ascii → bool) (s : string) : string :=
  match s with
  | EmptyString => EmptyString
  | String c r => if p c then drop_while p r else s
  end.

(** [split_last p s]: [Some (a, b)] when [s] is [a], a last character
    satisfying [p], then [b]. *)
Fixpoint split_last (p : ascii → bool) (s : string) : option (string * string) :=
  match s with
  | EmptyString => None
  | String c r =>
      match split_last p r with
      | Some (a, b) => Some (String c a, b)
      | None => if p c then Some (EmptyString, r) else None
      end
  end.

Definition is_char (x : ascii) (c : ascii) : bool := Ascii.eqb x c.

Definition is_slash (c : ascii) : bool := is_char "/" c || is_char "\" c.

Definition ends_authority (c : ascii) : bool :=
  is_slash c || is_char "?" c || is_char "#" c.

Definition scheme_char (c : ascii) : bool :=
  is_alpha c || is_digit c || is_char "+" c || is_char "-" c || is_char "." c.

Definition valid_scheme (s : string) : bool :=
  match s with
  | EmptyString => false
  | String c r => is_alpha c && all scheme_char r
  end.

Definition default_port (scheme : string) : option string :=
  if String.eqb scheme "http" then Some "80"
  else if String.eqb scheme "https" then Some "443"
  else if String.eqb scheme "ws" then Some "80"
  else if String.eqb scheme "wss" then Some "443"
  else if String.eqb scheme "ftp" then Some "21"
  else None.

(** The schemes whose origin is the tuple (scheme, host, port). *)
Definition tuple_origin (scheme : string) : bool :=
  match default_port scheme with
  | Some _ => true
  | None => false
  end.

Fixpoint decimal (acc : N) (s : string) : N :=
  match s with
  | EmptyString => acc
  | String c r => decimal (acc * 10 + N.of_nat (code c - 48)) r
  end.

(** A port as the parser keeps it: [Some ""] for none or the default. *)
Definition parse_port (scheme port : string) : option string :=
  if negb (all is_digit port) then None
  else if (65535 <? decimal 0 port)%N then None
  else
    let digits :=
      match port, drop_while (is_char "0") port with
      | EmptyString, _ => EmptyString
      | _, EmptyString => "0"
      | _, d => d
      end in
    if bool_decide (default_port scheme = Some digits) then Some ""
    else Some digits.

(** *** Cleaning the input *)

Definition is_c0_or_space (c : ascii) : bool := code c <=? 32.

Definition is_tab_or_newline (c : ascii) : bool :=
  (code c =? 9) || (code c =? 10) || (code c =? 13).

Fixpoint remove (p : ascii → bool) (s : string) : string :=
  match s with
  | EmptyString => EmptyString
  | String c r => if p c then remove p r else String c (remove p r)
  end.

Fixpoint drop_while_end (p : ascii → bool) (s : string) : string :=
  match s with
  | EmptyString => EmptyString
  | String c r =>
      match drop_while_end p r with
      | EmptyString => if p c then EmptyString else String c EmptyString
      | r' => String c r'
      end
  end.

Definition clean (s : string) : string :=
  remove is_tab_or_newline
    (drop_while_end is_c0_or_space (drop_while is_c0_or_space s)).

(** *** Numbers and fields *)

Definition is_hex (c : ascii) : bool :=
  is_digit c || ((97 <=? code c) && (code c <=? 102))
  || ((65 <=? code c) && (code c <=? 70)).

Definition is_octal (c : ascii) : bool := (48 <=? code c) && (code c <=? 55).

Definition digit_value (c : ascii) : N :=
  if is_digit c then N.of_nat (code c - 48)
  else if is_lower c then N.of_nat (code c - 87)
  else N.of_nat (code c - 55).

Fixpoint number (radix : N) (acc : N) (s : string) : N :=
  match s with
  | EmptyString => acc
  | String c r => number radix (acc * radix + digit_value c) r
  end.

(** [fields p s]: the pieces of [s] between the characters satisfying
    [p]; one more piece than there are separators. *)
Fixpoint fields (p : ascii → bool) (s : string) : list string :=
  match s with
  | EmptyString => [EmptyString]
  | String c r =>
      if p c then EmptyString :: fields p r
      else
        match fields p r with
        | f :: fs => String c f :: fs
        | [] => [String c EmptyString]
        end
  end.

Definition hex_digit (n : N) : ascii :=
  match String.get (N.to_nat n) "0123456789abcdef" with
  | Some c => c
  | None => "0"%char
  end.

(** A piece of an IPv6 address, below 65536, in hexadecimal without
    leading zeros. *)
Definition hex_of_piece (n : N) : string :=
  match drop_while (is_char "0")
          (String (hex_digit (n / 4096)) (String (hex_digit (n / 256 mod 16))
            (String (hex_digit (n / 16 mod 16)) (String (hex_digit (n mod 16)) EmptyString))))
  with
  | EmptyString => "0"
  | h => h
  end%N.

(** A number below 1000 in decimal. *)
Definition decimal_of_byte (n : N) : string :=
  match drop_while (is_char "0")
          (String (hex_digit (n / 100)) (String (hex_digit (n / 10 mod 10))
            (String (hex_digit (n mod 10)) EmptyString)))
  with
  | EmptyString => "0"
  | d => d
  end%N.

Fixpoint join (sep : string) (l : list string) : string :=
  match l with
  | [] => EmptyString
  | [x] => x
  | x :: r => x +:+ sep +:+ join sep r
  end.

(** *** IPv6 addresses *)

(** The text before and after the first [::]. *)
Fixpoint split_compress (s : string) : option (string * string) :=
  match s with
  | EmptyString => None
  | String c r =>
      match r with
      | String d r' =>
          if is_char ":" c && is_char ":" d then Some (EmptyString, r')
          else
            match split_compress r with
            | Some (a, b) => Some (String c a, b)
            | None => None
            end
      | EmptyString => None
      end
  end.

Definition hex_piece (f : string) : option N :=
  match f with
  | EmptyString => None
  | _ => if (String.length f <=? 4) && all is_hex f then Some (number 16 0 f) else None
  end.

(** One of the four numbers of an IPv4 address written inside an IPv6
    address: decimal, at most 255, no leading zero. *)
Definition ipv4_in_ipv6_number (f : string) : option N :=
  match f with
  | EmptyString => None
  | String c r =>
      if negb (all is_digit f) then None
      else if is_char "0" c && negb (String.eqb r "") then None
      else if (255 <? decimal 0 f)%N then None
      else Some (decimal 0 f)
  end.

Definition ipv4_in_ipv6 (f : string) : option (list N) :=
  match ipv4_in_ipv6_number <$> fields (is_char ".") f with
  | [Some a; Some b; Some c; Some d] => Some [a * 256 + b; c * 256 + d]%N
  | _ => None
  end.

(** The pieces of a run of groups; only the last group of the address
    ([last = true]) may be an IPv4 address. *)
Fixpoint pieces (last : bool) (groups : list string) : option (list N) :=
  match groups with
  | [] => Some []
  | [f] =>
      if last && negb (all (λ c, negb (is_char "." c)) f) then ipv4_in_ipv6 f
      else match hex_piece f with Some n => Some [n] | None => None end
  | f :: r =>
      match hex_piece f, pieces last r with
      | Some n, Some l => Some (n :: l)
      | _, _ => None
      end
  end.

Definition groups (s : string) : list string :=
  match s with
  | EmptyString => []
  | _ => fields (is_char ":") s
  end.

Definition parse_ipv6 (s : string) : option (list N) :=
  match split_compress s with
  | Some (l, r) =>
      match pieces false (groups l), pieces true (groups r) with
      | Some lp, Some rp =>
          if length lp + length rp <=? 7
          then Some (lp ++ replicate (8 - (length lp + length rp)) 0%N ++ rp)
          else None
      | _, _ => None
      end
  | None =>
      match s, pieces true (groups s) with
      | String _ _, Some p => if length p =? 8 then Some p else None
      | _, _ => None
      end
  end.

Fixpoint zero_run (l : list N) : nat :=
  match l with
  | 0%N :: r => S (zero_run r)
  | _ => 0
  end.

(** The start and the length of the first longest run of zero pieces. *)
Fixpoint longest_run (i : nat) (l : list N) : nat * nat :=
  match l with
  | [] => (0, 0)
  | _ :: r =>
      let here := zero_run l in
      let '(start, len) := longest_run (S i) r in
      if (len <=? here) && (0 <? here) then (i, here) else (start, len)
  end.

Definition serialize_ipv6 (p : list N) : string :=
  let '(start, len) := longest_run 0 p in
  if 2 <=? len then
    String.concat "" ((λ n, hex_of_piece n +:+ ":") <$> take start p)
      +:+ (if start =? 0 then "::" else ":")
      +:+ join ":" (hex_of_piece <$> drop (start + len) p)
  else join ":" (hex_of_piece <$> p).

(** *** Hosts *)

Definition forbidden_host (c : ascii) : bool :=
  (code c =? 0) || is_tab_or_newline c || is_char " " c || is_char "#" c
  || is_char "/" c || is_char ":" c || is_char "<" c || is_char ">" c
  || is_char "?" c || is_char "@" c || is_char "[" c || is_char "\" c
  || is_char "]" c || is_char "^" c || is_char "|" c.

Definition forbidden_domain (c : ascii) : bool :=
  forbidden_host c || (code c <=? 31) || is_char "%" c || (code c =? 127).

Fixpoint percent_decode (s : string) : string :=
  match s with
  | EmptyString => EmptyString
  | String c r =>
      match r with
      | String a (String b r') =>
          if is_char "%" c && is_hex a && is_hex b
          then String (ascii_of_N (digit_value a * 16 + digit_value b)) (percent_decode r')
          else String c (percent_decode r)
      | _ => String c (percent_decode r)
      end
  end.

(** A number of an IPv4 address: [0x] starts a hexadecimal one, another
    leading [0] an octal one. *)
Definition ipv4_number (s : string) : option N :=
  match s with
  | EmptyString => None
  | String c (String x r) =>
      if is_char "0" c && (is_char "x" x || is_char "X" x)
      then if all is_hex r then Some (number 16 0 r) else None
      else if is_char "0" c
      then if all is_octal (String x r) then Some (number 8 0 (String x r)) else None
      else if all is_digit s then Some (decimal 0 s) else None
  | _ => if all is_digit s then Some (decimal 0 s) else None
  end.

(** The labels of a domain, without the empty one a final dot leaves. *)
Definition labels (d : string) : list string :=
  match reverse (fields (is_char ".") d) with
  | EmptyString :: ((_ :: _) as r) => reverse r
  | r => reverse r
  end.

Definition ends_in_number (d : string) : bool :=
  match reverse (labels d) with
  | last :: _ =>
      (negb (String.eqb last "") && all is_digit last)
      || match ipv4_number last with Some _ => true | None => false end
  | [] => false
  end.

(** The value of the numbers of an IPv4 address, the first of them at
    position [i]: all but the last are at most 255, the last fills the
    remaining bytes. *)
Fixpoint ipv4_value (i : nat) (ns : list N) : option N :=
  match ns with
  | [] => None
  | [n] => if (n <? 256 ^ N.of_nat (4 - i))%N then Some n else None
  | n :: r =>
      match ipv4_value (S i) r with
      | Some v => if (255 <? n)%N then None else Some (n * 256 ^ N.of_nat (3 - i) + v)%N
      | None => None
      end
  end.

Fixpoint all_some {A : Type} (l : list (option A)) : option (list A) :=
  match l with
  | [] => Some []
  | Some a :: r =>
      match all_some r with
      | Some l' => Some (a :: l')
      | None => None
      end
  | None :: _ => None
  end.

Definition parse_ipv4 (d : string) : option string :=
  if 4 <? length (labels d) then None
  else
    match all_some (ipv4_number <$> labels d) with
    | Some ns =>
        match ipv4_value 0 ns with
        | Some v =>
            Some (join "." (decimal_of_byte <$>
                    [v / 16777216; v / 65536 mod 256; v / 256 mod 256; v mod 256]%N))
        | None => None
        end
    | None => None
    end.

Definition parse_ipv6_host (s : string) : option string :=
  match split_last (is_char "]") s with
  | Some (inner, EmptyString) =>
      match parse_ipv6 inner with
      | Some p => Some ("[" +:+ serialize_ipv6 p +:+ "]")
      | None => None
      end
  | _ => None
  end.

Definition parse_domain (s : string) : option string :=
  let d := lowercase (percent_decode s) in
  if String.eqb d "" then None
  else if negb (all (λ c, negb (forbidden_domain c)) d) then None
  else if ends_in_number d then parse_ipv4 d
  else Some d.

Definition parse_opaque_host (s : string) : option string :=
  if all (λ c, negb (forbidden_host c)) s then Some s else None.

(** The host parser; [opaque] for the hosts of schemes that are not
    special, which are kept as written. *)
Definition parse_host (opaque : bool) (s : string) : option string :=
  match s with
  | EmptyString => if opaque then Some EmptyString else None
  | String c r =>
      if is_char "[" c then parse_ipv6_host r
      else if opaque then parse_opaque_host s
      else parse_domain s
  end.

(** *** The parser *)

(** The host and, after the first colon outside square brackets, the
    port. *)
Fixpoint split_host_port (inside : bool) (s : string) : string * option string :=
  match s with
  | EmptyString => (EmptyString, None)
  | String c r =>
      if is_char ":" c && negb inside then (EmptyString, Some r)
      else
        let inside' :=
          if is_char "[" c then true else if is_char "]" c then false else inside in
        let '(h, p) := split_host_port inside' r in (String c h, p)
  end.

Definition ends_opaque_authority (c : ascii) : bool :=
  is_char "/" c || is_char "?" c || is_char "#" c.

(** Host, port and what follows the authority. *)
Definition parse_authority (special : bool) (scheme s : string)
  : option (string * string * string) :=
  let '(authority, tail) :=
    break (if special then ends_authority else ends_opaque_authority) s in
  let hostport :=
    match split_last (is_char "@") authority with
    | Some (_, EmptyString) => None
    | Some (_, hp) => Some hp
    | None => Some authority
    end in
  match hostport with
  | None => None
  | Some hp =>
      let '(host, prt) := split_host_port false hp in
      if String.eqb host ""
         && (special || match prt with Some _ => true | None => false end)
      then None
      else
        match parse_host (negb special) host,
              match prt with Some p => parse_port scheme p | None => Some EmptyString end
        with
        | Some h, Some p => Some (h, p, tail)
        | _, _ => None
        end
  end.

Definition is_drive_letter (s : string) : bool :=
  match s with
  | String a (String b EmptyString) => is_alpha a && (is_char ":" b || is_char "|" b)
  | _ => false
  end.

(** Whether what follows [file:] parses: only its host can fail. *)
Definition file_parses (after : string) : bool :=
  match after with
  | String a (String b r) =>
      if is_slash a && is_slash b then
        let buffer := fst (break ends_authority r) in
        is_drive_letter buffer || String.eqb buffer ""
        || match parse_host false buffer with Some _ => true | None => false end
      else true
  | _ => true
  end.

(** Whether what follows the colon of a scheme that is not special
    parses: only an authority after [//] can fail. *)
Definition opaque_parses (scheme after : string) : bool :=
  match after with
  | String a (String b r) =>
      if is_char "/" a && is_char "/" b then
        match parse_authority false scheme r with Some _ => true | None => false end
      else true
  | _ => true
  end.

(** What follows the scheme: host, port and the rest. *)
Definition parse_after (scheme after : string) : option (string * string * string) :=
  if tuple_origin scheme then parse_authority true scheme (drop_while is_slash after)
  else if (if String.eqb scheme "file" then file_parses after
           else opaque_parses scheme after)
  then Some (EmptyString, EmptyString, after)
  else None.

Record t : Type := mk {
  protocol : string;   (* the scheme, lower case, without the colon *)
  hostname : string;
  port : string;
  rest : string        (* path, query and fragment, as written *)
}.

Definition parse (input : string) : option t :=
  match break (is_char ":") (clean input) with
  | (sch, String _ after) =>
      if negb (valid_scheme sch) then None
      else
        match parse_after (lowercase sch) after with
        | Some (h, p, r) => Some (mk (lowercase sch) h p r)
        | None => None
        end
  | _ => None
  end.

Definition tuple_string (u : t) : string :=
  protocol u +:+ "://" +:+ hostname u +:+
    (if String.eqb (port u) "" then "" else ":" +:+ port u).

(** The [origin] getter. *)
Definition origin (u : t) : string :=
  if tuple_origin (protocol u) then tuple_string u
  else if String.eqb (protocol u) "blob" then
    match parse (fst (break (λ c, is_char "?" c || is_char "#" c) (rest u))) with
    | Some inner =>
        if String.eqb (protocol inner) "http" || String.eqb (protocol inner) "https"
        then tuple_string inner else "null"
    | None => "null"
    end
  else "null".

(** The scheme of a URL in its serialised form, where it is already in
    lower case: the text before the first colon. *)
Definition serialized_scheme (s : string) : option string :=
  match break (is_char ":") s with
  | (sch, String _ _) => Some sch
  | _ => None
  end.

End URL.

(** ** The host process and the shared state *)

(** What the script reads from [process], [App] and the configuration
    module and never writes.  [getBuildURL] lives in [lib/config], outside
    this file; the string it returns is taken as given. *)
Record Process : Type := mkProcess {
  argv : list string;
  execPath : string;
  env_APPIMAGE : option string;   (* process.env.APPIMAGE *)
  platform : string;              (* process.platform *)
  isPackaged : bool;              (* App.isPackaged *)
  getBuildURL : string
}.

(** The native window, as far as the script observes it. *)
Record BrowserWindow : Type := mkWindow {
  frame : JS.value;
  visible : bool;
  focused : bool;
  minimized : bool;
  maximized : bool;
  destroyed : bool
}.

(** What a click on a tray menu item runs (the closures of [buildMenu]). *)
Inductive MenuClick : Type :=
| NoClick
| ToggleClick     (* isVisible() ? hide() : show() *)
| QuitClick.      (* shouldQuit = true; app.quit() *)

Record MenuItem : Type := mkItem {
  label : string;
  type : string;
  enabled : bool;
  click : MenuClick
}.

Record RelaunchOptions : Type := mkOptions {
  args : list string;
  options_execPath : string
}.

(** Calls that leave the script, in the order they are made. *)
Inductive Call : Type :=
| ConnectRPC
| DropRPC
| StoreSet (key : string) (v : JS.object)
| LoadURL (url : string)
| OpenExternal (url : string)
| NewWindow (url : string)
| AppRelaunch (options : RelaunchOptions)
| AppQuit
| AppExit.

(** An event object handed to a listener. *)
Record Event : Type := mkEvent { defaultPrevented : bool }.

Definition preventDefault (_ : Event) : Event := mkEvent true.

Record State : Type := mkState {
  shouldQuit : bool;                   (* app.shouldQuit, undefined reads as false *)
  shouldRelaunch : bool;               (* app.shouldRelaunch *)
  config : JS.object;                  (* store.get("config") *)
  initialConfig : JS.object;           (* the snapshot createWindow took *)
  mainWindow : option BrowserWindow;   (* None: still undefined *)
  contextMenu : list MenuItem;         (* the tray's context menu *)
  immediates : list string;            (* setImmediate callbacks, by the URL each opens *)
  calls : list Call;
  exited : bool
}.

Definition set_shouldQuit (b : bool) (s : State) : State :=
  mkState b (shouldRelaunch s) (config s) (initialConfig s) (mainWindow s)
          (contextMenu s) (immediates s) (calls s) (exited s).

Definition set_shouldRelaunch (b : bool) (s : State) : State :=
  mkState (shouldQuit s) b (config s) (initialConfig s) (mainWindow s)
          (contextMenu s) (immediates s) (calls s) (exited s).

Definition set_config (c : JS.object) (s : State) : State :=
  mkState (shouldQuit s) (shouldRelaunch s) c (initialConfig s) (mainWindow s)
          (contextMenu s) (immediates s) (calls s) (exited s).

Definition set_initialConfig (c : JS.object) (s : State) : State :=
  mkState (shouldQuit s) (shouldRelaunch s) (config s) c (mainWindow s)
          (contextMenu s) (immediates s) (calls s) (exited s).

Definition set_mainWindow (w : option BrowserWindow) (s : State) : State :=
  mkState (shouldQuit s) (shouldRelaunch s) (config s) (initialConfig s) w
          (contextMenu s) (immediates s) (calls s) (exited s).

Definition set_contextMenu (m : list MenuItem) (s : State) : State :=
  mkState (shouldQuit s) (shouldRelaunch s) (config s) (initialConfig s) (mainWindow s)
          m (immediates s) (calls s) (exited s).

Definition set_immediates (q : list string) (s : State) : State :=
  mkState (shouldQuit s) (shouldRelaunch s) (config s) (initialConfig s) (mainWindow s)
          (contextMenu s) q (calls s) (exited s).

Definition set_calls (l : list Call) (s : State) : State :=
  mkState (shouldQuit s) (shouldRelaunch s) (config s) (initialConfig s) (mainWindow s)
          (contextMenu s) (immediates s) l (exited s).

Definition set_exited (b : bool) (s : State) : State :=
  mkState (shouldQuit s) (shouldRelaunch s) (config s) (initialConfig s) (mainWindow s)
          (contextMenu s) (immediates s) (calls s) b.

(** ** The handler monad: state, and exceptions that keep the state *)

Inductive Res (A : Type) : Type :=
| Ok (a : A) (s : State)
| Throw (error : string) (s : State).
Arguments Ok {A} a s.
Arguments Throw {A} error s.

Definition M (A : Type) : Type := State → Res A.

Definition ret {A : Type} (a : A) : M A := λ s, Ok a s.

Definition bind {A B : Type} (m : M A) (f : A → M B) : M B := λ s,
  match m s with
  | Ok a s' => f a s'
  | Throw e s' => Throw e s'
  end.

Declare Scope handler_scope.
Delimit Scope handler_scope with handler.
Notation "x ← m ; k" := (bind m (λ x, k))
  (at level 20, m at level 100, k at level 200, only parsing) : handler_scope.
Notation "m ;; k" := (bind m (λ _, k))
  (at level 100, k at level 200, only parsing, right associativity) : handler_scope.
Local Open Scope handler_scope.

Definition throw {A : Type} (error : string) : M A := λ s, Throw error s.
Definition read : M State := λ s, Ok s s.
Definition modify (f : State → State) : M unit := λ s, Ok () (f s).
Definition call (c : Call) : M unit := modify (λ s, set_calls (calls s ++ [c]) s).

(** The state a handler leaves behind, whether it returned or threw. *)
Definition final {A : Type} (r : Res A) : State :=
  match r with
  | Ok _ s => s
  | Throw _ s => s
  end.

(** ** [BrowserWindow] methods

    Every method needs [mainWindow] to be assigned and not destroyed;
    otherwise the call throws.  [show] and [hide] change the visibility and
    then emit the event of the same name. *)

Definition window : M BrowserWindow := λ s,
  match mainWindow s with
  | None => Throw "TypeError: mainWindow is undefined" s
  | Some w =>
      if destroyed w then Throw "TypeError: Object has been destroyed" s
      else Ok w s
  end.

Definition update_window (f : BrowserWindow → BrowserWindow) : M unit :=
  w ← window; modify (set_mainWindow (Some (f w))).

Definition isVisible : M bool := w ← window; ret (visible w).
Definition isFocused : M bool := w ← window; ret (focused w).
Definition isMinimized : M bool := w ← window; ret (minimized w).
Definition isMaximized : M bool := w ← window; ret (maximized w).

Definition with_visible (v f : bool) (w : BrowserWindow) : BrowserWindow :=
  mkWindow (frame w) v f (minimized w) (maximized w) (destroyed w).

Definition with_focused (f : bool) (w : BrowserWindow) : BrowserWindow :=
  mkWindow (frame w) (visible w) f (minimized w) (maximized w) (destroyed w).

Definition with_minimized (m : bool) (w : BrowserWindow) : BrowserWindow :=
  mkWindow (frame w) (visible w) (focused w) m (maximized w) (destroyed w).

Definition with_maximized (m : bool) (w : BrowserWindow) : BrowserWindow :=
  mkWindow (frame w) (visible w) (focused w) (minimized w) m (destroyed w).

Definition with_destroyed (w : BrowserWindow) : BrowserWindow :=
  mkWindow (frame w) false false (minimized w) (maximized w) true.

(** ** The tray menu *)

Definition toggle_label (v : bool) : string :=
  if v then "Hide Revolt" else "Show Revolt".

(** [buildMenu()]: the whole context menu is replaced by a fresh template
    whose third item is labelled from [mainWindow.isVisible()] as it is at
    the time of the call. *)
Definition template (v : bool) : list MenuItem :=
  [ mkItem "Revolt" "normal" false NoClick;
    mkItem "---" "separator" true NoClick;
    mkItem (toggle_label v) "normal" true ToggleClick;
    mkItem "Quit Revolt" "normal" true QuitClick ].

Definition buildMenu : M unit :=
  v ← isVisible;
  modify (set_contextMenu (template v)).

(** [mainWindow.on("show", () => buildMenu())] and the same for "hide". *)
Definition on_show : M unit := buildMenu.
Definition on_hide : M unit := buildMenu.

Definition show : M unit :=
  update_window (with_visible true true);; on_show.

Definition hide : M unit :=
  update_window (with_visible false false);; on_hide.

Definition focus : M unit := update_window (with_focused true).
Definition minimize : M unit := update_window (with_minimized true).
Definition restore : M unit := update_window (with_minimized false).
Definition maximize : M unit := update_window (with_maximized true).
Definition unmaximize : M unit := update_window (with_maximized false).

(** ** The handlers of [main.ts] *)

Section Handlers.

Context (proc : Process).

(** *** External collaborators *)

Definition connectRPC : M unit := call ConnectRPC.
Definition dropRPC : M unit := call DropRPC.

(** [store.get("config")] and [store.set("config", v)]: a synchronous
    key-value store, so a later [get] returns what was last [set]. *)
Definition store_get_config : M JS.object := s ← read; ret (config s).
Definition store_set_config (v : JS.object) : M unit :=
  call (StoreSet "config" v);; modify (set_config v).

(** Modelled from the spec: [getConfig] of [lib/config] is not part of
    this file; the specification gives it as [getConfig() ->
    ConfigSnapshot], a view of the persisted settings read on demand. *)
Definition getConfig : M JS.object := store_get_config.

Definition mainWindow_loadURL (url : string) : M unit :=
  window;; call (LoadURL url).

(** [App.quit()]: every open window is asked to close through its "close"
    listeners and, when none is left open, the process exits.  On this
    path Electron does not emit "window-all-closed". *)
Definition terminate : M unit := call AppExit;; modify (set_exited true).

(** *** Window events (lines 82-94) *)

Definition on_close (event : Event) : M Event :=
  s ← read;
  if negb (shouldQuit s) && negb (shouldRelaunch s)
     && JS.truthy (JS.get (config s) "minimiseToTray")
  then
    let event := preventDefault event in
    hide;; ret event
  else ret event.

Definition App_quit : M unit :=
  call AppQuit;;
  s ← read;
  match mainWindow s with
  | Some w =>
      if destroyed w then terminate
      else
        event ← on_close (mkEvent false);
        if defaultPrevented event then ret ()
        else update_window with_destroyed;; terminate
  | None => terminate
  end.

Definition App_relaunch (options : RelaunchOptions) : M unit :=
  call (AppRelaunch options).

(** *** Teardown (lines 237-256) *)

Definition on_window_all_closed : M unit :=
  s ← read;
  if shouldRelaunch s then
    let options :=
      mkOptions (JS.concat (JS.slice1 (argv proc)) ["--relaunch"]) (execPath proc) in
    let options :=
      match env_APPIMAGE proc with
      | Some appimage =>
          if isPackaged proc && JS.truthy (JS.Str appimage) then
            mkOptions (JS.unshift "--appimage-extract-and-run" (args options)) appimage
          else options
      | None => options
      end in
    App_relaunch options;;
    App_quit
  else if negb (String.eqb (platform proc) "darwin") then App_quit
  else ret ().

(** [mainWindow.close()]: the "close" listeners run first; unless one of
    them prevented the default the window is destroyed, and as it is the
    only window "window-all-closed" follows. *)
Definition close : M unit :=
  window;;
  event ← on_close (mkEvent false);
  if defaultPrevented event then ret ()
  else update_window with_destroyed;; on_window_all_closed.

(** *** Inter-process communication (lines 128-156) *)

Definition ipc_set (arg : JS.object) : M unit :=
  (if JS.defined (JS.get arg "discordRPC") then
     if JS.truthy (JS.get arg "discordRPC") then connectRPC else dropRPC
   else ret ());;
  old ← store_get_config;
  store_set_config (JS.spread old arg).

Definition ipc_reload : M unit := mainWindow_loadURL (getBuildURL proc).

Definition ipc_relaunch : M unit :=
  modify (set_shouldRelaunch true);; close.

Definition ipc_min : M unit := minimize.

Definition ipc_max : M unit :=
  m ← isMaximized; if m then unmaximize else maximize.

Definition ipc_close : M unit := close.

(** *** System tray (lines 161-206) *)

Definition menu_click (c : MenuClick) : M unit :=
  match c with
  | NoClick => ret ()
  | ToggleClick => v ← isVisible; if v then hide else show
  | QuitClick => modify (set_shouldQuit true);; App_quit
  end.

(** A click on the [i]-th entry of the context menu as it currently is. *)
Definition click_item (i : nat) : M unit :=
  s ← read;
  match contextMenu s !! i with
  | Some item => if enabled item then menu_click (click item) else ret ()
  | None => ret ()
  end.

Definition tray_click : M unit :=
  v ← isVisible;
  if v then
    f ← isFocused;
    if f then hide else focus
  else show.

(** *** [createWindow] (lines 41-207)

    The window is constructed shown; the listeners above are registered;
    the tray gets its first menu.  The geometry keeper, the zoom chord,
    the push of the configuration on "did-finish-load" and the auto-start
    commands touch nothing the other handlers read and are left out, as
    is a second [createWindow] on "activate". *)
Definition createWindow : M unit :=
  initialConfig ← getConfig;
  modify (set_initialConfig initialConfig);;
  modify (set_mainWindow
    (Some (mkWindow (JS.get initialConfig "frame") true true false false false)));;
  mainWindow_loadURL (getBuildURL proc);;
  buildMenu.

(** *** Single instance (lines 217-222) *)

Definition on_second_instance : M unit :=
  s ← read;
  match mainWindow s with
  | Some _ =>
      m ← isMinimized;
      (if m then restore else ret ());;
      focus
  | None => ret ()
  end.

(** *** Navigation handlers (lines 261-283) *)

Definition new_URL (s : string) : M URL.t :=
  match URL.parse s with
  | Some u => ret u
  | None => throw "TypeError: Invalid URL"
  end.

Definition on_will_navigate (event : Event) (navigationUrl : string) : M Event :=
  parsedUrl ← new_URL navigationUrl;
  if negb (String.eqb (URL.origin parsedUrl) (getBuildURL proc))
  then ret (preventDefault event)
  else ret event.

Inductive WindowOpenAction : Type := deny | allow.

(** [setImmediate(() => shell.openExternal(url))]. *)
Definition setImmediate (url : string) : M unit :=
  modify (λ s, set_immediates (immediates s ++ [url]) s).

Definition windowOpenHandler (url : string) : M WindowOpenAction :=
  (if JS.startsWith url "http:"
      || JS.startsWith url "https:"
      || JS.startsWith url "mailto:"
   then setImmediate url
   else ret ());;
  ret deny.

(** One turn of the event loop's check phase: the queued callbacks run in
    the order they were queued. *)
Definition run_immediates : M unit :=
  modify (λ s, set_calls (calls s ++ (OpenExternal <$> immediates s))
                         (set_immediates [] s)).

(** *** What Electron does around the handlers *)

(** Whether a run of the navigation listener called [preventDefault]; a
    listener that threw did not. *)
Definition cancelled (r : Res Event) : bool :=
  match r with
  | Ok event _ => defaultPrevented event
  | Throw _ _ => false
  end.

(** An in-page navigation: the listener runs on a fresh event, and the
    page is left unless the listener prevented the default.  That is also
    so when the listener threw: the exception is reported, the navigation
    goes ahead. *)
Definition navigate (url : string) : M unit := λ s,
  let r := on_will_navigate (mkEvent false) url s in
  let s' :=
    if cancelled r then final r else final (call (LoadURL url) (final r)) in
  match r with
  | Ok _ _ => Ok () s'
  | Throw e _ => Throw e s'
  end.

(** [window.open(url)] in the page: a window is created only for the
    action [allow]. *)
Definition window_open (url : string) : M unit :=
  action ← windowOpenHandler url;
  match action with
  | allow => call (NewWindow url)
  | deny => ret ()
  end.

(** *** The event loop *)

Inductive Input : Type :=
| TrayClick
| MenuItemClick (i : nat)
| CloseButton
| IpcSet (arg : JS.object)
| IpcReload
| IpcRelaunch
| IpcMin
| IpcMax
| IpcClose
| SecondInstance
| FocusGained
| FocusLost
| Navigate (url : string)
| WindowOpen (url : string)
| Tick.

Definition handle (i : Input) : M unit :=
  match i with
  | TrayClick => tray_click
  | MenuItemClick i => click_item i
  | CloseButton => close
  | IpcSet arg => ipc_set arg
  | IpcReload => ipc_reload
  | IpcRelaunch => ipc_relaunch
  | IpcMin => ipc_min
  | IpcMax => ipc_max
  | IpcClose => ipc_close
  | SecondInstance => on_second_instance
  | FocusGained => w ← window; if visible w then focus else ret ()
  | FocusLost => update_window (with_focused false)
  | Navigate url => navigate url
  | WindowOpen url => window_open url
  | Tick => run_immediates
  end.

(** One input: nothing is handled once the process has exited; an
    exception escaping a handler leaves the state as it was when thrown. *)
Definition exec (s : State) (i : Input) : State :=
  if exited s then s else final (handle i s).

Definition run (s : State) (inputs : list Input) : State :=
  foldl exec s inputs.

(** The process before "ready": nothing created yet. *)
Definition boot (cfg : JS.object) : State :=
  mkState false false cfg ∅ None [] [] [] false.

(** The state [createWindow] leaves. *)
Definition ready (cfg : JS.object) : State :=
  final (createWindow (boot cfg)).

End Handlers.

(** ** Observers used in the statements *)

Definition alive (s : State) : bool :=
  match mainWindow s with
  | Some w => negb (destroyed w)
  | None => false
  end.

Definition window_visible (s : State) : bool :=
  match mainWindow s with
  | Some w => visible w
  | None => false
  end.

Definition window_focused (s : State) : bool :=
  match mainWindow s with
  | Some w => focused w
  | None => false
  end.

(** The label of the tray menu's toggle item, its third entry. *)
Definition toggle_item_label (s : State) : option string :=
  label <$> contextMenu s !! 2.

Definition count_calls (p : Call → bool) (l : list Call) : nat :=
  length (List.filter p l).

Definition is_connect (c : Call) : bool :=
  match c with
  | ConnectRPC => true
  | _ => false
  end.

Definition is_drop (c : Call) : bool :=
  match c with
  | DropRPC => true
  | _ => false
  end.

Definition is_openExternal (url : string) (c : Call) : bool :=
  match c with
  | OpenExternal u => String.eqb u url
  | _ => false
  end.


(** Whether the process runs from a packaged AppImage, and from which file:
    [App.isPackaged && process.env.APPIMAGE]. *)
Definition packaged_appimage (proc : Process) : option string :=
  match env_APPIMAGE proc with
  | Some appimage =>
      if isPackaged proc && JS.truthy (JS.Str appimage) then Some appimage else None
  | None => None
  end.

Definition not_colon (c : ascii) : bool := negb (URL.is_char ":" c).

(** The three schemes the window-open handler passes on to the system. *)
Definition external_scheme (url : string) : bool :=
  bool_decide (URL.serialized_scheme url ∈ [Some "http"; Some "https"; Some "mailto"]).

(** Whether the "close" listener will intercept: the two flags are unset
    and the persisted [minimiseToTray] is truthy. *)
Definition intercepts (s : State) : bool :=
  negb (shouldQuit s) && negb (shouldRelaunch s)
  && JS.truthy (JS.get (config s) "minimiseToTray").

(** The state [show()] and [hide()] leave: the visibility is changed and
    the menu rebuilt for it. *)
Definition after_visibility (v : bool) (w : BrowserWindow) (s : State) : State :=
  set_contextMenu (template v) (set_mainWindow (Some (with_visible v v w)) s).

(** The state in which further calls have been made and the process has
    exited. *)
Definition exited_after (l : list Call) (s : State) : State :=
  set_exited true (set_calls (calls s ++ l) s).

(** The relaunch options of the specification: the original arguments
    without the first, then [--relaunch]; from an AppImage, that file as
    the executable and the extract-and-run flag in front. *)
Definition relaunch_options (proc : Process) : RelaunchOptions :=
  match packaged_appimage proc with
  | Some appimage =>
      mkOptions ("--appimage-extract-and-run" :: drop 1 (argv proc) ++ ["--relaunch"])
                appimage
  | None => mkOptions (drop 1 (argv proc) ++ ["--relaunch"]) (execPath proc)
  end.

(** The presence-broadcast call a patch asks for, if any. *)
Definition rpc_calls (arg : JS.object) : list Call :=
  match arg !! "discordRPC" with
  | None | Some JS.Undefined => []
  | Some v => [if JS.truthy v then ConnectRPC else DropRPC]
  end.


(** The tray menu is in step with the window: while the window is alive
    the toggle item is labelled for its current visibility. *)
Definition menu_in_sync (s : State) : Prop :=
  alive s = true → toggle_item_label s = Some (toggle_label (window_visible s)).

Definition preserves {A : Type} (m : M A) : Prop :=
  ∀ s, menu_in_sync s → menu_in_sync (final (m s)).

(** ** Sample processes and configurations *)

Definition sample_config : JS.object :=
  <["minimiseToTray" := JS.Bool true]>
    (<["frame" := JS.Bool true]> (<["discordRPC" := JS.Bool false]> ∅)).

Definition linux_process : Process :=
  mkProcess ["/opt/Revolt/revolt-desktop"; "--no-sandbox"] "/opt/Revolt/revolt-desktop"
            None "linux" true "https://app.revolt.chat".

Definition appimage_process : Process :=
  mkProcess ["/tmp/.mount_Revolt/revolt-desktop"; "--no-sandbox"]
            "/tmp/.mount_Revolt/revolt-desktop"
            (Some "/home/user/Revolt.AppImage") "linux" true "https://app.revolt.chat".


(** ** Further observers and the remaining entry points *)

(** An invariant of the shared state kept by a handler, whether it returns
    or throws. *)
Definition keeps {A : Type} (P : State → Prop) (m : M A) : Prop :=
  ∀ s, P s → P (final (m s)).

Definition is_relaunch (c : Call) : bool :=
  match c with
  | AppRelaunch _ => true
  | _ => false
  end.

Definition is_storeSet (c : Call) : bool :=
  match c with
  | StoreSet _ _ => true
  | _ => false
  end.

Definition is_rpc (c : Call) : bool := is_connect c || is_drop c.

(** A target the navigation listener lets through: its origin is the
    build URL string, or [new URL] rejects it and the listener throws
    before it can prevent anything. *)
Definition not_prevented (proc : Process) (url : string) : bool :=
  match URL.parse url with
  | Some u => String.eqb (URL.origin u) (getBuildURL proc)
  | None => true
  end.

(** The calls the window-open handler lets through: no window is ever
    created and only the three schemes are opened externally. *)
Definition allowed (c : Call) : bool :=
  match c with
  | NewWindow _ => false
  | OpenExternal url => external_scheme url
  | _ => true
  end.

(** The loads the script makes or lets through: the build URL, or a
    target the navigation listener did not prevent. *)
Definition load_allowed (proc : Process) (c : Call) : bool :=
  match c with
  | LoadURL url => String.eqb url (getBuildURL proc) || not_prevented proc url
  | _ => true
  end.

Definition policy_respected (proc : Process) (s : State) : Prop :=
  Forall (λ c, allowed c = true ∧ load_allowed proc c = true) (calls s)
  ∧ Forall (λ url, external_scheme url = true) (immediates s).

(** The patches of the [set] commands among some inputs, in order. *)
Definition patches (inputs : list Input) : list JS.object :=
  omap (λ i, match i with IpcSet arg => Some arg | _ => None end) inputs.

(** At most one relaunch is ever requested, and the process has exited
    once it was. *)
Definition relaunch_once (s : State) : Prop :=
  count_calls is_relaunch (calls s) = 0
  ∨ (count_calls is_relaunch (calls s) = 1 ∧ exited s = true ∧ shouldRelaunch s = true).

(** Off [darwin] a destroyed window means an exited process. *)
Definition alive_or_exited (s : State) : Prop :=
  alive s = true ∨ exited s = true.

(** *** Start-up (lines 212-232)

    [App.requestSingleInstanceLock()] either gives the lock or not.
    Without it the script calls [App.quit()] and registers nothing that
    could create a window.  With it, "ready" awaits [firstRun()] of
    [lib/config] and then calls [createWindow]; whether that promise
    resolves is taken as given, and a rejection ends the continuation
    before [createWindow]. *)
Definition on_ready (proc : Process) (firstRun_resolves : bool) : M unit :=
  if firstRun_resolves then createWindow proc
  else throw "UnhandledPromiseRejection: firstRun".

Definition main (proc : Process) (acquiredLock firstRun_resolves : bool) : M unit :=
  if negb acquiredLock then App_quit
  else on_ready proc firstRun_resolves.

(** *** "activate" (lines 228-230) and the listeners of [ipcMain]

    [createWindow] registers its [ipcMain] listeners each time it runs, and
    "activate" runs it again when no window is open.  A session keeps, next
    to the shared state, how many times the listeners were registered; an
    IPC message runs that many copies of its listener, in order, and an
    exception thrown by one of them ends the emit.  The window and
    navigation listeners belong to the window created last and run once.
    Only the tray created last is followed. *)
Record Session : Type := mkSession {
  core : State;
  listeners : nat
}.

Definition emit (n : nat) (listener : M unit) : M unit :=
  Nat.iter n (λ rest, listener;; rest) (ret ()).

Definition is_ipc (i : Input) : bool :=
  match i with
  | IpcSet _ | IpcReload | IpcRelaunch | IpcMin | IpcMax | IpcClose => true
  | _ => false
  end.

Definition session_createWindow (proc : Process) (ss : Session) : Session :=
  mkSession (final (createWindow proc (core ss))) (S (listeners ss)).

(** [if (BrowserWindow.getAllWindows().length === 0) createWindow()]. *)
Definition on_activate (proc : Process) (ss : Session) : Session :=
  if alive (core ss) then ss else session_createWindow proc ss.

Definition session_handle (proc : Process) (n : nat) (i : Input) : M unit :=
  if is_ipc i then emit n (handle proc i) else handle proc i.

Inductive SessionInput : Type :=
| Activate
| Deliver (i : Input).

Definition session_exec (proc : Process) (ss : Session) (i : SessionInput) : Session :=
  if exited (core ss) then ss
  else
    match i with
    | Activate => on_activate proc ss
    | Deliver i =>
        mkSession (final (session_handle proc (listeners ss) i (core ss))) (listeners ss)
    end.

Definition session_run (proc : Process) (ss : Session) (inputs : list SessionInput) : Session :=
  foldl (session_exec proc) ss inputs.

(** The session "ready" leaves: one window, one set of listeners. *)
Definition session_ready (proc : Process) (cfg : JS.object) : Session :=
  session_createWindow proc (mkSession (boot cfg) 0).

Definition darwin_process : Process :=
  mkProcess ["/Applications/Revolt.app/Contents/MacOS/Revolt"]
            "/Applications/Revolt.app/Contents/MacOS/Revolt"
            None "darwin" true "https://app.revolt.chat".

(** A configuration with minimise-to-tray switched off. *)
Definition plain_config : JS.object :=
  <["minimiseToTray" := JS.Bool false]> sample_config.

(** * Properties *)

(** ** The URL model on a few inputs *)

Example URL_origin_path :
  URL.origin <$> URL.parse "https://app.revolt.chat/login?x=1" = Some "https://app.revolt.chat".
Proof. reflexivity. Qed.

Example URL_origin_port :
  URL.origin <$> URL.parse "HTTP://Local.Revolt.Chat:3001/a" = Some "http://local.revolt.chat:3001".
Proof. reflexivity. Qed.

Example URL_origin_default_port :
  URL.origin <$> URL.parse "https://user@example.com:0443" = Some "https://example.com".
Proof. reflexivity. Qed.

Example URL_origin_opaque :
  URL.origin <$> URL.parse "file:///opt/revolt/index.html" = Some "null".
Proof. reflexivity. Qed.

Example URL_parse_two_ports : URL.parse "https://example.com:80:90/" = None.
Proof. reflexivity. Qed.

Example URL_origin_leading_space :
  URL.origin <$> URL.parse " https://example.com/a " = Some "https://example.com".
Proof. reflexivity. Qed.

Example URL_origin_ipv6 :
  URL.origin <$> URL.parse "http://[0:0:0:0:0:0:0:1]:8080/" = Some "http://[::1]:8080".
Proof. reflexivity. Qed.

Example URL_origin_ipv4_number :
  URL.origin <$> URL.parse "http://0x7f.1/" = Some "http://127.0.0.1".
Proof. reflexivity. Qed.

Example URL_origin_blob :
  URL.origin <$> URL.parse "blob:https://app.revolt.chat/0b2f?x#y"
  = Some "https://app.revolt.chat".
Proof. reflexivity. Qed.

Example URL_parse_forbidden_host : URL.parse "http://a b/" = None.
Proof. reflexivity. Qed.

Example URL_parse_relative : URL.parse "/channel/1" = None.
Proof. reflexivity. Qed.

(** ** Running the monad *)

Lemma bind_Ok {A B : Type} (m : M A) (f : A → M B) (s s' : State) (a : A) :
  m s = Ok a s' → bind m f s = f a s'.
Proof. intros E. unfold bind. now rewrite E. Qed.

Lemma bind_Throw {A B : Type} (m : M A) (f : A → M B) (s s' : State) (e : string) :
  m s = Throw e s' → bind m f s = Throw e s'.
Proof. intros E. unfold bind. now rewrite E. Qed.

Lemma alive_window (s : State) :
  alive s = true → ∃ w, mainWindow s = Some w ∧ destroyed w = false.
Proof.
  unfold alive. destruct (mainWindow s) as [w|]; [|discriminate].
  intros H. exists w. split; [reflexivity|]. now destruct (destroyed w).
Qed.

Lemma window_Ok (s : State) (w : BrowserWindow) :
  mainWindow s = Some w → destroyed w = false → window s = Ok w s.
Proof. intros Hw Hd. unfold window. now rewrite Hw, Hd. Qed.

Lemma window_Throw (s : State) :
  alive s = false → ∃ e, window s = Throw e s.
Proof.
  unfold alive, window. destruct (mainWindow s) as [w|]; [|eauto].
  destruct (destroyed w); [eauto|discriminate].
Qed.

Lemma update_window_Ok (f : BrowserWindow → BrowserWindow) (s : State) (w : BrowserWindow) :
  mainWindow s = Some w → destroyed w = false →
  update_window f s = Ok () (set_mainWindow (Some (f w)) s).
Proof.
  intros Hw Hd. unfold update_window.
  rewrite (bind_Ok _ _ _ _ _ (window_Ok s w Hw Hd)). reflexivity.
Qed.

Lemma buildMenu_Ok (s : State) (w : BrowserWindow) :
  mainWindow s = Some w → destroyed w = false →
  buildMenu s = Ok () (set_contextMenu (template (visible w)) s).
Proof.
  intros Hw Hd. unfold buildMenu, isVisible.
  unfold bind at 1. rewrite (bind_Ok _ _ _ _ _ (window_Ok s w Hw Hd)). reflexivity.
Qed.

Lemma show_Ok (s : State) (w : BrowserWindow) :
  mainWindow s = Some w → destroyed w = false →
  show s = Ok () (after_visibility true w s).
Proof.
  intros Hw Hd. unfold show, on_show.
  rewrite (bind_Ok _ _ _ _ _ (update_window_Ok _ s w Hw Hd)).
  now rewrite (buildMenu_Ok _ (with_visible true true w)).
Qed.

Lemma hide_Ok (s : State) (w : BrowserWindow) :
  mainWindow s = Some w → destroyed w = false →
  hide s = Ok () (after_visibility false w s).
Proof.
  intros Hw Hd. unfold hide, on_hide.
  rewrite (bind_Ok _ _ _ _ _ (update_window_Ok _ s w Hw Hd)).
  now rewrite (buildMenu_Ok _ (with_visible false false w)).
Qed.

Lemma isVisible_Ok (s : State) (w : BrowserWindow) :
  mainWindow s = Some w → destroyed w = false → isVisible s = Ok (visible w) s.
Proof.
  intros Hw Hd. unfold isVisible.
  now rewrite (bind_Ok _ _ _ _ _ (window_Ok s w Hw Hd)).
Qed.

Lemma isFocused_Ok (s : State) (w : BrowserWindow) :
  mainWindow s = Some w → destroyed w = false → isFocused s = Ok (focused w) s.
Proof.
  intros Hw Hd. unfold isFocused.
  now rewrite (bind_Ok _ _ _ _ _ (window_Ok s w Hw Hd)).
Qed.

(** ** The tray click (lines 196-206) *)

Lemma tray_click_Ok (s : State) (w : BrowserWindow) :
  mainWindow s = Some w → destroyed w = false →
  tray_click s =
    Ok () (if visible w then
             if focused w then after_visibility false w s
             else set_mainWindow (Some (with_focused true w)) s
           else after_visibility true w s).
Proof.
  intros Hw Hd. unfold tray_click.
  rewrite (bind_Ok _ _ _ _ _ (isVisible_Ok s w Hw Hd)).
  destruct (visible w).
  - rewrite (bind_Ok _ _ _ _ _ (isFocused_Ok s w Hw Hd)).
    destruct (focused w).
    + now apply hide_Ok.
    + now apply update_window_Ok.
  - now apply show_Ok.
Qed.

(** C4.  A primary click on the tray icon, with the window alive, is a
    three-way branch: a hidden window is shown; a visible and focused
    window is hidden; a visible but unfocused window is focused and stays
    visible, so the click is not a visibility toggle.  The handler returns
    normally in each case and the window stays alive. *)
Theorem tray_click_three_way (s : State) :
  alive s = true →
  ∃ s', tray_click s = Ok () s' ∧ alive s' = true ∧
    match window_visible s, window_focused s with
    | false, _ => window_visible s' = true
    | true, true => window_visible s' = false
    | true, false => window_visible s' = true ∧ window_focused s' = true
    end.
Proof.
  intros Ha. destruct (alive_window s Ha) as (w & Hw & Hd).
  eexists. split; [apply (tray_click_Ok s w Hw Hd)|].
  unfold alive, window_visible, window_focused. rewrite Hw.
  destruct (visible w) eqn:Hv, (focused w) eqn:Hf; cbn;
    rewrite ?Hd, ?Hv, ?Hf; repeat split; reflexivity.
Qed.

Lemma tray_click_three_way_witness :
  alive (ready linux_process sample_config) = true ∧
  ∃ s', tray_click (ready linux_process sample_config) = Ok () s' ∧ alive s' = true ∧
    match window_visible (ready linux_process sample_config),
          window_focused (ready linux_process sample_config) with
    | false, _ => window_visible s' = true
    | true, true => window_visible s' = false
    | true, false => window_visible s' = true ∧ window_focused s' = true
    end.
Proof.
  split; [reflexivity|].
  apply (tray_click_three_way (ready linux_process sample_config)). reflexivity.
Defined.

(** ** Closing the window (lines 85-94) and the teardown (lines 237-256) *)

Lemma on_close_Ok (s : State) (w : BrowserWindow) (event : Event) :
  mainWindow s = Some w → destroyed w = false →
  on_close event s =
    if intercepts s then Ok (preventDefault event) (after_visibility false w s)
    else Ok event s.
Proof.
  intros Hw Hd. unfold on_close, intercepts.
  unfold bind at 1, read.
  destruct (negb (shouldQuit s) && negb (shouldRelaunch s) && _); [|reflexivity].
  now rewrite (bind_Ok _ _ _ _ _ (hide_Ok s w Hw Hd)).
Qed.

Lemma App_quit_gone (s : State) :
  alive s = false → App_quit s = Ok () (exited_after [AppQuit; AppExit] s).
Proof.
  unfold alive, App_quit, terminate, exited_after, call, modify, read, bind.
  cbn. destruct (mainWindow s) as [w|]; [destruct (destroyed w); [|discriminate]|];
    intros _; cbn; now rewrite <- app_assoc.
Qed.

Lemma window_all_closed_relaunch (proc : Process) (s : State) :
  shouldRelaunch s = true → alive s = false →
  on_window_all_closed proc s =
    Ok () (exited_after [AppRelaunch (relaunch_options proc); AppQuit; AppExit] s).
Proof.
  intros Hr Ha. unfold on_window_all_closed.
  unfold bind at 1, read. rewrite Hr.
  unfold App_relaunch, call.
  erewrite bind_Ok by reflexivity.
  rewrite App_quit_gone by exact Ha.
  unfold exited_after, relaunch_options, packaged_appimage, JS.concat, JS.slice1, JS.unshift.
  cbn. rewrite <- app_assoc. cbn.
  destruct (env_APPIMAGE proc) as [a|]; [destruct (isPackaged proc && _)|]; reflexivity.
Qed.

Lemma window_all_closed_keeps_window (proc : Process) (s : State) :
  alive s = false → mainWindow (final (on_window_all_closed proc s)) = mainWindow s.
Proof.
  intros Ha. destruct (shouldRelaunch s) eqn:Hr.
  - now rewrite window_all_closed_relaunch.
  - unfold on_window_all_closed. unfold bind at 1, read. rewrite Hr.
    destruct (negb _); [|reflexivity]. now rewrite App_quit_gone.
Qed.

Lemma close_Ok (proc : Process) (s : State) (w : BrowserWindow) :
  mainWindow s = Some w → destroyed w = false →
  close proc s =
    if intercepts s then Ok () (after_visibility false w s)
    else on_window_all_closed proc (set_mainWindow (Some (with_destroyed w)) s).
Proof.
  intros Hw Hd. unfold close.
  rewrite (bind_Ok _ _ _ _ _ (window_Ok s w Hw Hd)).
  unfold bind at 1. rewrite (on_close_Ok s w _ Hw Hd).
  destruct (intercepts s); cbn; [reflexivity|].
  now rewrite (bind_Ok _ _ _ _ _ (update_window_Ok _ s w Hw Hd)).
Qed.

Lemma close_passes_destroys (proc : Process) (s : State) (w : BrowserWindow) :
  mainWindow s = Some w → destroyed w = false → intercepts s = false →
  mainWindow (final (close proc s)) = Some (with_destroyed w).
Proof.
  intros Hw Hd Hi. rewrite (close_Ok proc s w Hw Hd), Hi.
  now rewrite window_all_closed_keeps_window.
Qed.

(** C2.  A close request on the live window.  When minimise-to-tray is
    enabled in the persisted configuration and neither [shouldQuit] nor
    [shouldRelaunch] is set, the close is intercepted and becomes a hide:
    the window is still alive, is hidden, nothing was asked of the
    application, and a later [show()] makes it visible again.  In every
    other case the close proceeds and the window is destroyed.  The
    [relaunch] command sets its flag before it closes, so on that path the
    window is destroyed whatever the configuration says. *)
Theorem close_intercepted_or_destroyed (proc : Process) (s : State) :
  alive s = true →
  (if JS.truthy (JS.get (config s) "minimiseToTray")
      && negb (shouldQuit s) && negb (shouldRelaunch s)
   then ∃ s', close proc s = Ok () s' ∧ alive s' = true ∧ window_visible s' = false
              ∧ calls s' = calls s ∧ exited s' = exited s
              ∧ window_visible (final (show s')) = true
   else destroyed <$> mainWindow (final (close proc s)) = Some true)
  ∧ destroyed <$> mainWindow (final (ipc_relaunch proc s)) = Some true.
Proof.
  intros Ha. destruct (alive_window s Ha) as (w & Hw & Hd). split.
  - replace (_ && _ && _) with (intercepts s)
      by (unfold intercepts; destruct (shouldQuit s), (shouldRelaunch s), (JS.truthy _); reflexivity).
    destruct (intercepts s) eqn:Hi.
    + eexists. split; [rewrite (close_Ok proc s w Hw Hd), Hi; reflexivity|].
      unfold alive, window_visible. cbn. rewrite Hd. repeat split; try reflexivity.
      now erewrite show_Ok by (cbn; eauto).
    + now rewrite (close_passes_destroys proc s w Hw Hd Hi).
  - unfold ipc_relaunch. erewrite bind_Ok by reflexivity.
    now rewrite (close_passes_destroys proc (set_shouldRelaunch true s) w Hw Hd)
      by (unfold intercepts; cbn; now rewrite andb_false_r).
Qed.

Lemma close_intercepted_or_destroyed_witness :
  alive (ready linux_process sample_config) = true ∧
  ((if JS.truthy (JS.get (config (ready linux_process sample_config)) "minimiseToTray")
       && negb (shouldQuit (ready linux_process sample_config))
       && negb (shouldRelaunch (ready linux_process sample_config))
    then ∃ s', close linux_process (ready linux_process sample_config) = Ok () s'
               ∧ alive s' = true ∧ window_visible s' = false
               ∧ calls s' = calls (ready linux_process sample_config)
               ∧ exited s' = exited (ready linux_process sample_config)
               ∧ window_visible (final (show s')) = true
    else destroyed <$> mainWindow (final (close linux_process (ready linux_process sample_config)))
         = Some true)
   ∧ destroyed <$> mainWindow (final (ipc_relaunch linux_process (ready linux_process sample_config)))
     = Some true).
Proof.
  split; [reflexivity|].
  apply (close_intercepted_or_destroyed linux_process (ready linux_process sample_config)).
  reflexivity.
Defined.

(** C8.  The teardown with [shouldRelaunch] set and no window left asks
    for a relaunch with the original arguments minus the first followed by
    [--relaunch], then quits, and the process exits; from a packaged
    AppImage the executable is that file and [--appimage-extract-and-run]
    is put in front of those arguments. *)
Theorem relaunch_arguments (proc : Process) (s : State) :
  shouldRelaunch s = true → alive s = false →
  ∃ s', on_window_all_closed proc s = Ok () s' ∧ exited s' = true ∧
    calls s' = calls s ++
      [AppRelaunch
         (match packaged_appimage proc with
          | Some appimage =>
              mkOptions ("--appimage-extract-and-run" :: drop 1 (argv proc) ++ ["--relaunch"])
                        appimage
          | None => mkOptions (drop 1 (argv proc) ++ ["--relaunch"]) (execPath proc)
          end);
       AppQuit; AppExit].
Proof.
  intros Hr Ha. eexists. split; [now apply window_all_closed_relaunch|].
  split; reflexivity.
Qed.

Lemma relaunch_arguments_witness :
  let s := final ((modify (set_shouldRelaunch true);; update_window with_destroyed)
                    (ready appimage_process sample_config)) in
  shouldRelaunch s = true ∧ alive s = false ∧
  ∃ s', on_window_all_closed appimage_process s = Ok () s' ∧ exited s' = true ∧
    calls s' = calls s ++
      [AppRelaunch
         (match packaged_appimage appimage_process with
          | Some appimage =>
              mkOptions ("--appimage-extract-and-run"
                           :: drop 1 (argv appimage_process) ++ ["--relaunch"])
                        appimage
          | None => mkOptions (drop 1 (argv appimage_process) ++ ["--relaunch"])
                              (execPath appimage_process)
          end);
       AppQuit; AppExit].
Proof.
  intros s. split; [reflexivity|]. split; [reflexivity|].
  apply (relaunch_arguments appimage_process s); reflexivity.
Defined.

(** The [relaunch] command end to end: flag, close, teardown. *)
Lemma ipc_relaunch_trace (proc : Process) (s : State) :
  alive s = true →
  calls (final (ipc_relaunch proc s)) =
    calls s ++ [AppRelaunch (relaunch_options proc); AppQuit; AppExit].
Proof.
  intros Ha. destruct (alive_window s Ha) as (w & Hw & Hd).
  unfold ipc_relaunch. erewrite bind_Ok by reflexivity.
  rewrite (close_Ok proc (set_shouldRelaunch true s) w Hw Hd).
  replace (intercepts _) with false
    by (unfold intercepts; cbn; now rewrite andb_false_r).
  rewrite window_all_closed_relaunch; [reflexivity| reflexivity |].
  unfold alive. cbn. reflexivity.
Qed.

Example relaunch_from_appimage :
  calls (run appimage_process (ready appimage_process sample_config) [IpcRelaunch]) =
    [ LoadURL "https://app.revolt.chat";
      AppRelaunch (mkOptions ["--appimage-extract-and-run"; "--no-sandbox"; "--relaunch"]
                             "/home/user/Revolt.AppImage");
      AppQuit; AppExit ].
Proof. reflexivity. Qed.

(** ** The [set] command (lines 128-141) *)

Lemma rpc_calls_spec (arg : JS.object) :
  rpc_calls arg =
    if JS.defined (JS.get arg "discordRPC")
    then [if JS.truthy (JS.get arg "discordRPC") then ConnectRPC else DropRPC]
    else [].
Proof.
  unfold rpc_calls, JS.get. destruct (arg !! "discordRPC") as [[]|]; reflexivity.
Qed.

Lemma ipc_set_Ok (arg : JS.object) (s : State) :
  ipc_set arg s =
    Ok () (set_config (JS.spread (config s) arg)
             (set_calls (calls s ++ rpc_calls arg
                           ++ [StoreSet "config" (JS.spread (config s) arg)]) s)).
Proof.
  rewrite rpc_calls_spec.
  unfold ipc_set, connectRPC, dropRPC, store_get_config, store_set_config,
    call, modify, read, bind, ret.
  destruct (JS.defined _); [destruct (JS.truthy _)|]; cbn;
    rewrite <- ?app_assoc; reflexivity.
Qed.

Lemma spread_lookup (old arg : JS.object) (k : string) :
  JS.spread old arg !! k =
    match arg !! k with
    | Some v => Some v
    | None => old !! k
    end.
Proof.
  unfold JS.spread. rewrite lookup_union.
  destruct (arg !! k), (old !! k); reflexivity.
Qed.

(** C6.  The [set] command merges: it returns normally, and in the
    configuration it persists every key of the patch has the patch's
    value while every other key reads as it did before.  The object
    handed to [store.set] is that merged configuration. *)
Theorem set_merges_patch (arg : JS.object) (s : State) :
  ∃ s', ipc_set arg s = Ok () s' ∧
    (∀ k : string,
       config s' !! k =
         match arg !! k with
         | Some v => Some v
         | None => config s !! k
         end) ∧
    last (calls s') = Some (StoreSet "config" (config s')).
Proof.
  eexists. split; [apply ipc_set_Ok|]. cbn. split.
  - intros k. apply spread_lookup.
  - now rewrite app_assoc, last_snoc.
Qed.

Lemma count_calls_app (p : Call → bool) (l1 l2 : list Call) :
  count_calls p (l1 ++ l2) = count_calls p l1 + count_calls p l2.
Proof. unfold count_calls. now rewrite List.filter_app, length_app. Qed.

(** With the [set] listener registered once, as [createWindow] leaves it
    the first time: two runs of the listener, for [{discordRPC: true}] and
    then [{discordRPC: false}], make one connect, the first persist, one
    disconnect, the second persist, in this order, and the persisted
    [discordRPC] ends as [false]. *)
Theorem set_rpc_on_then_off (s : State) :
  let s1 := final (ipc_set {["discordRPC" := JS.Bool true]} s) in
  let s2 := final (ipc_set {["discordRPC" := JS.Bool false]} s1) in
  calls s2 = calls s ++
    [ ConnectRPC; StoreSet "config" (<["discordRPC" := JS.Bool true]> (config s));
      DropRPC; StoreSet "config" (<["discordRPC" := JS.Bool false]> (config s)) ]
  ∧ count_calls is_connect (calls s2) = S (count_calls is_connect (calls s))
  ∧ count_calls is_drop (calls s2) = S (count_calls is_drop (calls s))
  ∧ config s2 = <["discordRPC" := JS.Bool false]> (config s)
  ∧ JS.get (config s2) "discordRPC" = JS.Bool false.
Proof.
  intros s1 s2. subst s1 s2. rewrite !ipc_set_Ok.
  cbn [final calls config set_config set_calls].
  unfold JS.spread. rewrite <- !insert_union_singleton_l, insert_insert_eq.
  assert (E : (calls s ++ rpc_calls {["discordRPC" := JS.Bool true]}
                 ++ [StoreSet "config" (<["discordRPC" := JS.Bool true]> (config s))])
                ++ rpc_calls {["discordRPC" := JS.Bool false]}
                ++ [StoreSet "config" (<["discordRPC" := JS.Bool false]> (config s))]
              = calls s ++
                [ ConnectRPC; StoreSet "config" (<["discordRPC" := JS.Bool true]> (config s));
                  DropRPC; StoreSet "config" (<["discordRPC" := JS.Bool false]> (config s)) ]).
  { unfold rpc_calls. rewrite !lookup_singleton_eq. cbn. now rewrite <- app_assoc. }
  rewrite E. repeat split.
  - rewrite count_calls_app. cbn. lia.
  - rewrite count_calls_app. cbn. lia.
  - unfold JS.get. now rewrite lookup_insert_eq.
Qed.

Example sample_rpc_on_then_off :
  calls (run linux_process (ready linux_process sample_config)
           [ IpcSet {["discordRPC" := JS.Bool true]};
             IpcSet {["discordRPC" := JS.Bool false]} ]) =
    [ LoadURL "https://app.revolt.chat";
      ConnectRPC; StoreSet "config" (<["discordRPC" := JS.Bool true]> sample_config);
      DropRPC; StoreSet "config" (<["discordRPC" := JS.Bool false]> sample_config) ].
Proof. vm_compute. reflexivity. Qed.

(** C7, at the failing input.  On [darwin], with minimise-to-tray off, the
    window is closed, the process lives on, and "activate" runs
    [createWindow] again, which registers a second [set] listener on
    [ipcMain].  The messages [set({discordRPC: true})] and
    [set({discordRPC: false})] then each run both listeners: connect is
    called twice and then disconnect twice, each call followed by its own
    persist.  The persisted [discordRPC] still ends as [false]. *)
Theorem set_on_off_after_activate :
  let ss := session_run darwin_process (session_ready darwin_process plain_config)
              [Deliver CloseButton; Activate] in
  let ss' := session_run darwin_process ss
               [ Deliver (IpcSet {["discordRPC" := JS.Bool true]});
                 Deliver (IpcSet {["discordRPC" := JS.Bool false]}) ] in
  exited (core ss) = false ∧ alive (core ss) = true ∧ listeners ss = 2 ∧
  calls (core ss') = calls (core ss) ++
    [ ConnectRPC; StoreSet "config" (<["discordRPC" := JS.Bool true]> plain_config);
      ConnectRPC; StoreSet "config" (<["discordRPC" := JS.Bool true]> plain_config);
      DropRPC; StoreSet "config" (<["discordRPC" := JS.Bool false]> plain_config);
      DropRPC; StoreSet "config" (<["discordRPC" := JS.Bool false]> plain_config) ] ∧
  count_calls is_connect (calls (core ss')) = 2 ∧
  count_calls is_drop (calls (core ss')) = 2 ∧
  JS.get (config (core ss')) "discordRPC" = JS.Bool false.
Proof.
  cbv zeta. split; [reflexivity|]. split; [reflexivity|]. split; [reflexivity|].
  split; [vm_compute; reflexivity|]. repeat split; reflexivity.
Qed.

(** C10.  A patch with a defined [discordRPC] field makes [set] call the
    presence-broadcast collaborator once, to connect when the field is
    truthy and to disconnect otherwise, before it persists; the value
    already persisted is never looked at, so the call is made also when
    the patch changes nothing. *)
Theorem set_rpc_keyed_on_presence (arg : JS.object) (s : State) :
  JS.defined (JS.get arg "discordRPC") = true →
  calls (final (ipc_set arg s)) =
    calls s ++
      [ if JS.truthy (JS.get arg "discordRPC") then ConnectRPC else DropRPC;
        StoreSet "config" (JS.spread (config s) arg) ].
Proof.
  intros Hd. rewrite ipc_set_Ok. cbn. now rewrite rpc_calls_spec, Hd.
Qed.

Lemma set_rpc_keyed_on_presence_witness :
  let s := ready linux_process sample_config in
  let arg : JS.object := {["discordRPC" := JS.Bool false]} in
  JS.get (config s) "discordRPC" = JS.get arg "discordRPC" ∧
  JS.defined (JS.get arg "discordRPC") = true ∧
  calls (final (ipc_set arg s)) =
    calls s ++
      [ if JS.truthy (JS.get arg "discordRPC") then ConnectRPC else DropRPC;
        StoreSet "config" (JS.spread (config s) arg) ].
Proof.
  intros s arg. split; [reflexivity|]. split; [reflexivity|].
  apply (set_rpc_keyed_on_presence arg s). reflexivity.
Defined.

(** C9.  The close listener reads the persisted configuration when the
    close event fires.  After a [set] whose patch carries [minimiseToTray],
    the next close request is intercepted exactly when the patched value
    is truthy and neither life-cycle flag is set, whatever the
    configuration was before; the snapshot [createWindow] took is not
    touched by [set] and plays no part. *)
Theorem close_honours_latest_set (proc : Process) (arg : JS.object) (v : JS.value) (s : State) :
  alive s = true →
  arg !! "minimiseToTray" = Some v →
  let s1 := final (ipc_set arg s) in
  let intercepted := negb (shouldQuit s) && negb (shouldRelaunch s) && JS.truthy v in
  initialConfig s1 = initialConfig s ∧
  (∃ s2, on_close (mkEvent false) s1 = Ok (mkEvent intercepted) s2) ∧
  alive (final (close proc s1)) = intercepted.
Proof.
  intros Ha Hk s1 intercepted. subst s1 intercepted. rewrite ipc_set_Ok.
  destruct (alive_window s Ha) as (w & Hw & Hd). cbn [final].
  set (s1 := set_config _ _).
  assert (Hi : intercepts s1 = negb (shouldQuit s) && negb (shouldRelaunch s) && JS.truthy v).
  { unfold intercepts, s1, JS.get. cbn. now rewrite spread_lookup, Hk. }
  rewrite <- Hi. split; [reflexivity|]. split.
  - rewrite (on_close_Ok s1 w _ Hw Hd). destruct (intercepts s1); eexists; reflexivity.
  - destruct (intercepts s1) eqn:Hi'.
    + rewrite (close_Ok proc s1 w Hw Hd), Hi'. unfold alive. cbn. now rewrite Hd.
    + unfold alive. now rewrite (close_passes_destroys proc s1 w Hw Hd Hi').
Qed.

Lemma close_honours_latest_set_witness :
  let s := ready linux_process sample_config in
  let arg : JS.object := {["minimiseToTray" := JS.Bool false]} in
  JS.get (initialConfig s) "minimiseToTray" = JS.Bool true ∧
  alive s = true ∧
  arg !! "minimiseToTray" = Some (JS.Bool false) ∧
  initialConfig (final (ipc_set arg s)) = initialConfig s ∧
  (∃ s2, on_close (mkEvent false) (final (ipc_set arg s)) = Ok (mkEvent false) s2) ∧
  alive (final (close linux_process (final (ipc_set arg s)))) = false.
Proof.
  intros s arg. repeat (split; [reflexivity|]).
  apply (close_honours_latest_set linux_process arg (JS.Bool false) s); reflexivity.
Defined.

Example close_after_enabling_tray :
  let s := ready linux_process (<["minimiseToTray" := JS.Bool false]> sample_config) in
  alive (run linux_process s [CloseButton]) = false ∧
  alive (run linux_process s [IpcSet {["minimiseToTray" := JS.Bool true]}; CloseButton]) = true.
Proof. split; reflexivity. Qed.

(** ** Navigation policy (lines 261-283) *)

Lemma will_navigate_Ok (proc : Process) (event : Event) (url : string) (u : URL.t) (s : State) :
  URL.parse url = Some u →
  on_will_navigate proc event url s =
    Ok (if negb (String.eqb (URL.origin u) (getBuildURL proc))
        then preventDefault event else event) s.
Proof.
  intros Hu. unfold on_will_navigate, new_URL, bind. rewrite Hu. cbn.
  now destruct (negb _).
Qed.

Lemma will_navigate_Throw (proc : Process) (event : Event) (url : string) (s : State) :
  URL.parse url = None →
  cancelled (on_will_navigate proc event url s) = false.
Proof.
  intros Hu. unfold on_will_navigate, new_URL, bind. now rewrite Hu.
Qed.

Lemma will_navigate_final (proc : Process) (event : Event) (url : string) (s : State) :
  final (on_will_navigate proc event url s) = s.
Proof.
  unfold on_will_navigate, new_URL, bind.
  destruct (URL.parse url) as [u|]; cbn; [|reflexivity].
  now destruct (negb _).
Qed.

Lemma navigate_final (proc : Process) (url : string) (s : State) :
  final (navigate proc url s) =
    if cancelled (on_will_navigate proc (mkEvent false) url s) then s
    else set_calls (calls s ++ [LoadURL url]) s.
Proof.
  unfold navigate. rewrite will_navigate_final.
  destruct (on_will_navigate proc (mkEvent false) url s) as [event s'|e s']; cbn;
    [destruct (defaultPrevented event)|]; reflexivity.
Qed.




(** With the build URL written as a bare origin the two comparisons agree. *)
Lemma navigation_origin_form (proc : Process) (url : string) (u b : URL.t) (s : State) :
  URL.parse url = Some u → URL.parse (getBuildURL proc) = Some b →
  URL.origin b = getBuildURL proc →
  cancelled (on_will_navigate proc (mkEvent false) url s) = true
  ↔ URL.origin u ≠ URL.origin b.
Proof.
  intros Hu _ Hb. rewrite Hb, (will_navigate_Ok proc _ url u s Hu).
  destruct (String.eqb_spec (URL.origin u) (getBuildURL proc)) as [E|E]; cbn.
  - split; [discriminate|]. intros H. now destruct H.
  - split; [intros _; exact E|reflexivity].
Qed.

Example navigation_inside_build_origin :
  cancelled (on_will_navigate linux_process (mkEvent false) "https://app.revolt.chat/login"
               (ready linux_process sample_config)) = false.
Proof. reflexivity. Qed.

(** *** The window-open handler *)

Lemma prefix_cons (a b : ascii) (p s : string) :
  String.prefix (String a p) (String b s) = Ascii.eqb a b && String.prefix p s.
Proof.
  cbn. destruct (ascii_dec a b) as [->|N].
  - now rewrite Ascii.eqb_refl.
  - apply Ascii.eqb_neq in N. now rewrite N.
Qed.

Lemma serialized_scheme_cons (c : ascii) (r : string) :
  URL.serialized_scheme (String c r) =
    if URL.is_char ":" c then Some EmptyString
    else String c <$> URL.serialized_scheme r.
Proof.
  unfold URL.serialized_scheme. cbn [URL.break].
  destruct (URL.is_char ":" c); [reflexivity|].
  destruct (URL.break _ r) as [a [|x y]]; reflexivity.
Qed.

Lemma startsWith_scheme (p s : string) :
  URL.all not_colon p = true →
  JS.startsWith s (p +:+ ":") = true ↔ URL.serialized_scheme s = Some p.
Proof.
  unfold JS.startsWith. revert s. induction p as [|a p IH]; intros s Hp.
  - destruct s as [|c r]; [cbn; split; discriminate|].
    rewrite serialized_scheme_cons. change ("" +:+ ":") with (String ":" EmptyString).
    rewrite prefix_cons. unfold URL.is_char.
    destruct (Ascii.eqb ":" c); cbn [andb].
    + split; [reflexivity|]. intros _. now destruct r.
    + split; [discriminate|]. destruct (URL.serialized_scheme r); discriminate.
  - cbn [URL.all] in Hp. apply andb_true_iff in Hp as [Ha Hp].
    destruct s as [|c r]; [cbn; split; discriminate|].
    rewrite serialized_scheme_cons. change (String a p +:+ ":") with (String a (p +:+ ":")).
    rewrite prefix_cons.
    destruct (Ascii.eqb_spec a c) as [E|N]; cbn [andb].
    + subst c. unfold not_colon in Ha. apply negb_true_iff in Ha. rewrite Ha.
      rewrite (IH r Hp). destruct (URL.serialized_scheme r); cbn; split; congruence.
    + split; [discriminate|]. destruct (URL.is_char ":" c); [discriminate|].
      destruct (URL.serialized_scheme r); cbn; congruence.
Qed.

Lemma startsWith_external (url : string) :
  JS.startsWith url "http:" || JS.startsWith url "https:" || JS.startsWith url "mailto:"
  = external_scheme url.
Proof.
  apply eq_true_iff_eq. unfold external_scheme.
  rewrite !orb_true_iff, bool_decide_eq_true, !elem_of_cons, elem_of_nil.
  rewrite (startsWith_scheme "http"), (startsWith_scheme "https"),
    (startsWith_scheme "mailto") by reflexivity.
  tauto.
Qed.

(** For a URL that parses, the text before the first colon of the cleaned
    input is its scheme up to letter case; on the resolved URL Electron
    passes to the handler, whose scheme is already in lower case, it is the
    scheme itself. *)
Lemma serialized_scheme_protocol (url : string) (u : URL.t) :
  URL.parse url = Some u →
  URL.lowercase <$> URL.serialized_scheme (URL.clean url) = Some (URL.protocol u).
Proof.
  unfold URL.parse, URL.serialized_scheme.
  destruct (URL.break (URL.is_char ":") (URL.clean url)) as [sch [|c after]];
    [discriminate|].
  destruct (negb (URL.valid_scheme sch)); [discriminate|].
  destruct (URL.parse_after (URL.lowercase sch) after) as [[[h prt] r]|]; [|discriminate].
  now intros [= <-].
Qed.

Example window_open_other_schemes :
  external_scheme "ftp://example.com" = false ∧
  external_scheme "file:///etc/passwd" = false ∧
  external_scheme "javascript:alert(1)" = false ∧
  external_scheme "https://example.com" = true ∧
  external_scheme "mailto:someone@example.com" = true.
Proof. repeat split; reflexivity. Qed.

Lemma windowOpenHandler_Ok (url : string) (s : State) :
  windowOpenHandler url s =
    Ok deny (if external_scheme url
             then set_immediates (immediates s ++ [url]) s else s).
Proof.
  unfold windowOpenHandler. rewrite startsWith_external.
  now destruct (external_scheme url).
Qed.

(** C3.  A request for a new window is answered [deny] at once: the
    handler itself makes no call, leaves the window as it is, and Electron
    creates no window.  On the next turn of the event loop the URL is
    handed to [shell.openExternal] once when its scheme is [http], [https]
    or [mailto], and not at all otherwise; the queue is then empty, so it
    is never handed over a second time. *)
Theorem window_open_denied (url : string) (s : State) :
  ∃ s1, windowOpenHandler url s = Ok deny s1 ∧
    calls s1 = calls s ∧ mainWindow s1 = mainWindow s ∧
    calls (final (window_open url s)) = calls s ∧
    calls (final (run_immediates s1)) =
      (calls s ++ (OpenExternal <$> immediates s))
        ++ (if external_scheme url then [OpenExternal url] else []) ∧
    count_calls (is_openExternal url) (calls (final (run_immediates s1))) =
      count_calls (is_openExternal url) (calls (final (run_immediates s)))
        + (if external_scheme url then 1 else 0) ∧
    immediates (final (run_immediates s1)) = [].
Proof.
  eexists. split; [apply windowOpenHandler_Ok|].
  unfold window_open. rewrite (bind_Ok _ _ _ _ _ (windowOpenHandler_Ok url s)).
  destruct (external_scheme url); cbn [final run_immediates modify calls immediates
    set_calls set_immediates mainWindow];
    rewrite ?fmap_app, ?app_nil_r, ?app_assoc, ?count_calls_app; cbn [fmap list_fmap];
    repeat split; try reflexivity.
  - unfold count_calls at 3. cbn. now rewrite String.eqb_refl.
  - lia.
Qed.

Example window_open_https_then_ftp :
  calls (run linux_process (ready linux_process sample_config)
           [WindowOpen "https://example.com"; WindowOpen "ftp://example.com"; Tick; Tick]) =
    [LoadURL "https://app.revolt.chat"; OpenExternal "https://example.com"].
Proof. reflexivity. Qed.

(** ** The tray menu follows the window (lines 82-83, 163-193) *)

Lemma in_sync_same (s s' : State) :
  mainWindow s' = mainWindow s → contextMenu s' = contextMenu s →
  menu_in_sync s → menu_in_sync s'.
Proof.
  unfold menu_in_sync, alive, toggle_item_label, window_visible.
  intros -> ->. auto.
Qed.

Lemma preserves_ret {A : Type} (a : A) : preserves (ret a).
Proof. intros s H. exact H. Qed.

Lemma preserves_throw {A : Type} (e : string) : preserves (@throw A e).
Proof. intros s H. exact H. Qed.

Lemma preserves_read : preserves read.
Proof. intros s H. exact H. Qed.

Lemma preserves_bind {A B : Type} (m : M A) (f : A → M B) :
  preserves m → (∀ a, preserves (f a)) → preserves (bind m f).
Proof.
  intros Hm Hf s H. specialize (Hm s H). unfold bind.
  destruct (m s) as [a s'|e s']; cbn in Hm; [now apply Hf|exact Hm].
Qed.

Lemma preserves_modify (f : State → State) :
  (∀ s, mainWindow (f s) = mainWindow s ∧ contextMenu (f s) = contextMenu s) →
  preserves (modify f).
Proof.
  intros Hf s H. destruct (Hf s) as [Hw Hm]. now apply (in_sync_same s).
Qed.

Lemma preserves_call (c : Call) : preserves (call c).
Proof. apply preserves_modify. intros s. split; reflexivity. Qed.

Lemma preserves_window : preserves window.
Proof.
  intros s H. unfold window.
  destruct (mainWindow s) as [w|]; [destruct (destroyed w)|]; exact H.
Qed.

Lemma preserves_update_window (f : BrowserWindow → BrowserWindow) :
  (∀ w, destroyed (f w) = true ∨ visible (f w) = visible w) →
  preserves (update_window f).
Proof.
  intros Hf s H. unfold update_window, bind, window.
  destruct (mainWindow s) as [w|] eqn:Hw; [|exact H].
  destruct (destroyed w) eqn:Hd; [exact H|]. cbn.
  unfold menu_in_sync, alive, toggle_item_label, window_visible in *.
  rewrite Hw, Hd in H. cbn in *.
  destruct (Hf w) as [E|E]; rewrite E; [discriminate|]. intros _. now apply H.
Qed.

Lemma preserves_buildMenu : preserves buildMenu.
Proof.
  intros s H. unfold buildMenu, isVisible, bind, window.
  destruct (mainWindow s) as [w|] eqn:Hw; [|exact H].
  destruct (destroyed w) eqn:Hd; [exact H|]. cbn.
  unfold menu_in_sync, toggle_item_label, window_visible. cbn. now rewrite Hw.
Qed.

(** [show()] and [hide()] restore the invariant from any state: the menu
    is rebuilt after the visibility changed. *)
Lemma preserves_show : preserves show.
Proof.
  intros s H. unfold show, on_show, bind at 1, update_window, bind at 1, window.
  destruct (mainWindow s) as [w|] eqn:Hw; [|exact H].
  destruct (destroyed w) eqn:Hd; [exact H|]. cbn.
  erewrite buildMenu_Ok by (cbn; eauto). cbn. intros _. reflexivity.
Qed.

Lemma preserves_hide : preserves hide.
Proof.
  intros s H. unfold hide, on_hide, bind at 1, update_window, bind at 1, window.
  destruct (mainWindow s) as [w|] eqn:Hw; [|exact H].
  destruct (destroyed w) eqn:Hd; [exact H|]. cbn.
  erewrite buildMenu_Ok by (cbn; eauto). cbn. intros _. reflexivity.
Qed.

Create HintDb sync.

#[local] Hint Resolve preserves_ret preserves_throw preserves_read preserves_call
  preserves_window preserves_buildMenu preserves_show preserves_hide : sync.

#[local] Hint Extern 1 (preserves (modify _)) =>
  apply preserves_modify; intros ?; split; reflexivity : sync.

#[local] Hint Extern 1 (preserves (update_window _)) =>
  apply preserves_update_window; intros ?; cbn; auto : sync.

(** Walks through a handler: binds, conditionals and matches are split,
    the leaves are closed from the hint base. *)
Ltac preserve :=
  repeat first
    [ solve [eauto with sync]
    | progress cbv beta zeta
    | match goal with
      | |- preserves (bind _ _) => apply preserves_bind; [|intros ?]
      | |- preserves (if ?b then _ else _) => destruct b
      | |- preserves (match ?x with _ => _ end) => destruct x
      end ].

Lemma preserves_isVisible : preserves isVisible.
Proof. unfold isVisible. preserve. Qed.

Lemma preserves_isFocused : preserves isFocused.
Proof. unfold isFocused. preserve. Qed.

Lemma preserves_isMinimized : preserves isMinimized.
Proof. unfold isMinimized. preserve. Qed.

Lemma preserves_isMaximized : preserves isMaximized.
Proof. unfold isMaximized. preserve. Qed.

#[local] Hint Resolve preserves_isVisible preserves_isFocused preserves_isMinimized
  preserves_isMaximized : sync.

Lemma preserves_on_close (event : Event) : preserves (on_close event).
Proof. unfold on_close. preserve. Qed.

#[local] Hint Resolve preserves_on_close : sync.

Lemma preserves_App_quit : preserves App_quit.
Proof. unfold App_quit, terminate. preserve. Qed.

#[local] Hint Resolve preserves_App_quit : sync.

Lemma preserves_window_all_closed (proc : Process) : preserves (on_window_all_closed proc).
Proof. unfold on_window_all_closed, App_relaunch. preserve. Qed.

#[local] Hint Resolve preserves_window_all_closed : sync.

Lemma preserves_close (proc : Process) : preserves (close proc).
Proof. unfold close. preserve. Qed.

#[local] Hint Resolve preserves_close : sync.

Lemma preserves_navigate (proc : Process) (url : string) :
  preserves (navigate proc url).
Proof.
  intros s H. rewrite navigate_final.
  destruct (cancelled _); [exact H|]. now apply (in_sync_same s).
Qed.

Lemma preserves_handle (proc : Process) (i : Input) : preserves (handle proc i).
Proof.
  destruct i; cbn [handle]; try apply preserves_navigate;
    unfold tray_click, click_item, menu_click, ipc_set, connectRPC, dropRPC,
      store_get_config, store_set_config, ipc_reload, mainWindow_loadURL,
      ipc_relaunch, ipc_min, ipc_max, ipc_close, on_second_instance,
      focus, minimize, restore, maximize, unmaximize,
      window_open, windowOpenHandler, setImmediate, run_immediates;
    preserve.
Qed.

Lemma in_sync_exec (proc : Process) (s : State) (i : Input) :
  menu_in_sync s → menu_in_sync (exec proc s i).
Proof.
  intros H. unfold exec. destruct (exited s); [exact H|].
  now apply preserves_handle.
Qed.

Lemma in_sync_run (proc : Process) (inputs : list Input) (s : State) :
  menu_in_sync s → menu_in_sync (run proc s inputs).
Proof.
  revert s. induction inputs as [|i inputs IH]; intros s H; [exact H|].
  cbn. apply IH. now apply in_sync_exec.
Qed.

Lemma in_sync_ready (proc : Process) (cfg : JS.object) :
  menu_in_sync (ready proc cfg).
Proof. intros _. reflexivity. Qed.

Lemma toggle_label_verb (v : bool) :
  String.prefix "Hide" (toggle_label v) = v ∧
  String.prefix "Show" (toggle_label v) = negb v.
Proof. destruct v; split; reflexivity. Qed.

(** C5.  After [createWindow], whatever inputs the event loop handles
    (tray clicks, menu clicks, close requests, IPC commands, focus changes,
    navigations), as long as the window is alive the tray menu's toggle
    item is labelled for the window's current visibility: the label is
    [Hide Revolt] when the window is visible and [Show Revolt] when it is
    not, so it begins with [Hide] exactly when the window is visible and
    with [Show] exactly when it is hidden. *)
Theorem tray_label_never_stale (proc : Process) (cfg : JS.object) (inputs : list Input) :
  let s := run proc (ready proc cfg) inputs in
  alive s = true →
  ∃ l, toggle_item_label s = Some l ∧
    l = (if window_visible s then "Hide Revolt" else "Show Revolt") ∧
    String.prefix "Hide" l = window_visible s ∧
    String.prefix "Show" l = negb (window_visible s).
Proof.
  intros s Ha. exists (toggle_label (window_visible s)).
  split; [|split; [reflexivity|apply toggle_label_verb]].
  now apply (in_sync_run proc inputs (ready proc cfg) (in_sync_ready proc cfg)).
Qed.

Lemma tray_label_never_stale_witness :
  let s := run linux_process (ready linux_process sample_config)
             [CloseButton; TrayClick; FocusLost; TrayClick; MenuItemClick 2] in
  alive s = true ∧ window_visible s = false ∧
  ∃ l, toggle_item_label s = Some l ∧
    l = (if window_visible s then "Hide Revolt" else "Show Revolt") ∧
    String.prefix "Hide" l = window_visible s ∧
    String.prefix "Show" l = negb (window_visible s).
Proof.
  intros s. split; [reflexivity|]. split; [reflexivity|].
  apply (tray_label_never_stale linux_process sample_config
           [CloseButton; TrayClick; FocusLost; TrayClick; MenuItemClick 2]).
  reflexivity.
Defined.

(** * Further properties of the handlers *)

(** ** The [set] command: how patches compose *)

Lemma spread_assoc (c a b : JS.object) :
  JS.spread (JS.spread c a) b = JS.spread c (JS.spread a b).
Proof. unfold JS.spread. now rewrite (assoc_L (∪)). Qed.

(** X1.  Two [set] commands in a row persist the same configuration as one
    [set] with the second patch spread over the first: on a key both
    patches carry, the later one wins. *)
Theorem set_then_set (a b : JS.object) (s : State) :
  config (final (ipc_set b (final (ipc_set a s))))
  = config (final (ipc_set (JS.spread a b) s)).
Proof. rewrite !ipc_set_Ok. cbn. apply spread_assoc. Qed.

(** X2.  Repeating a [set] changes nothing in the persisted
    configuration, but it is persisted again and the presence-broadcast
    call of the patch is made again. *)
Theorem set_twice (arg : JS.object) (s : State) :
  let s1 := final (ipc_set arg s) in
  let s2 := final (ipc_set arg s1) in
  config s2 = config s1 ∧
  calls s2 = calls s1 ++ rpc_calls arg ++ [StoreSet "config" (config s1)].
Proof.
  intros s1 s2. subst s1 s2. rewrite !ipc_set_Ok. cbn.
  assert (E : JS.spread (JS.spread (config s) arg) arg = JS.spread (config s) arg).
  { rewrite spread_assoc. unfold JS.spread. now rewrite (idemp_L (∪)). }
  now rewrite E.
Qed.

(** X3.  A [set] with an empty patch leaves the configuration as it is and
    calls neither connect nor disconnect; the configuration is still
    written back to the store. *)
Theorem set_empty_patch (s : State) :
  ∃ s', ipc_set ∅ s = Ok () s' ∧ config s' = config s ∧
    calls s' = calls s ++ [StoreSet "config" (config s)].
Proof.
  eexists. split; [apply ipc_set_Ok|]. cbn. unfold JS.spread.
  now rewrite (left_id_L ∅ (∪)).
Qed.

(** X4.  The presence-broadcast call depends on the patch's [discordRPC]
    alone.  A patch without the field, or with the field [undefined],
    makes no call; with [null] or any other falsy value it disconnects.
    In each case the field of the patch, when present, replaces the
    persisted one: after a patch carrying [undefined] the persisted
    [discordRPC] reads as [undefined]. *)
Theorem set_rpc_undefined_or_null (arg : JS.object) (s : State) :
  let s' := final (ipc_set arg s) in
  count_calls is_rpc (calls s') =
    count_calls is_rpc (calls s)
    + (if JS.defined (JS.get arg "discordRPC") then 1 else 0)
  ∧ count_calls is_connect (calls s') =
    count_calls is_connect (calls s)
    + (if JS.truthy (JS.get arg "discordRPC") then 1 else 0)
  ∧ JS.get (config s') "discordRPC" =
    match arg !! "discordRPC" with
    | Some v => v
    | None => JS.get (config s) "discordRPC"
    end.
Proof.
  intros s'. subst s'. rewrite ipc_set_Ok. cbn [final calls config set_config set_calls].
  rewrite !count_calls_app. unfold JS.get at 3. rewrite spread_lookup.
  unfold rpc_calls, JS.get.
  destruct (arg !! "discordRPC") as [[| |[]|n|str]|]; cbn;
    try destruct (n =? 0)%Z; try destruct (String.eqb str ""); cbn;
    repeat split; lia.
Qed.

Example set_rpc_undefined_sample :
  let s := final (ipc_set {["discordRPC" := JS.Undefined]}
                    (ready linux_process (<["discordRPC" := JS.Bool true]> sample_config))) in
  count_calls is_rpc (calls s) = 0 ∧ JS.get (config s) "discordRPC" = JS.Undefined.
Proof. split; reflexivity. Qed.

(** ** Closing without a relaunch (lines 85-94, 237-256) *)

Lemma window_all_closed_plain (proc : Process) (s : State) :
  shouldRelaunch s = false → alive s = false →
  on_window_all_closed proc s =
    Ok () (if String.eqb (platform proc) "darwin" then s
           else exited_after [AppQuit; AppExit] s).
Proof.
  intros Hr Ha. unfold on_window_all_closed. unfold bind at 1, read. rewrite Hr.
  destruct (String.eqb (platform proc) "darwin"); cbn; [reflexivity|].
  now apply App_quit_gone.
Qed.

(** X5.  A close request that is not intercepted, with no relaunch
    pending, destroys the window; the process then quits and exits on
    every platform but [darwin], where nothing more is called and the
    process keeps running without a window.  No relaunch is requested. *)
Theorem close_without_relaunch (proc : Process) (s : State) :
  alive s = true → intercepts s = false → shouldRelaunch s = false →
  ∃ s', close proc s = Ok () s' ∧ alive s' = false ∧
    calls s' = calls s ++
      (if String.eqb (platform proc) "darwin" then [] else [AppQuit; AppExit]) ∧
    exited s' = (if String.eqb (platform proc) "darwin" then exited s else true).
Proof.
  intros Ha Hi Hr. destruct (alive_window s Ha) as (w & Hw & Hd).
  rewrite (close_Ok proc s w Hw Hd), Hi.
  rewrite window_all_closed_plain by (try exact Hr; reflexivity).
  eexists. split; [reflexivity|].
  destruct (String.eqb (platform proc) "darwin"); cbn;
    rewrite ?app_nil_r; repeat split; reflexivity.
Qed.

Lemma close_without_relaunch_witness :
  let s := ready darwin_process plain_config in
  alive s = true ∧ intercepts s = false ∧ shouldRelaunch s = false ∧
  ∃ s', close darwin_process s = Ok () s' ∧ alive s' = false ∧
    calls s' = calls s ++
      (if String.eqb (platform darwin_process) "darwin" then [] else [AppQuit; AppExit]) ∧
    exited s' =
      (if String.eqb (platform darwin_process) "darwin" then exited s else true).
Proof.
  intros s. repeat (split; [reflexivity|]).
  apply (close_without_relaunch darwin_process s); reflexivity.
Defined.

(** X6.  Once the window is destroyed while the process lives on (the
    [darwin] case above), the tray click, a close request and the
    "second-instance" listener all throw on the destroyed window and
    change nothing: [mainWindow] is still assigned, so the guard
    [if (mainWindow)] of "second-instance" does not protect it. *)
Theorem destroyed_window_throws (proc : Process) (s : State) (w : BrowserWindow) :
  mainWindow s = Some w → destroyed w = true →
  tray_click s = Throw "TypeError: Object has been destroyed" s ∧
  close proc s = Throw "TypeError: Object has been destroyed" s ∧
  on_second_instance s = Throw "TypeError: Object has been destroyed" s ∧
  menu_click ToggleClick s = Throw "TypeError: Object has been destroyed" s.
Proof.
  intros Hw Hd.
  assert (E : window s = Throw "TypeError: Object has been destroyed" s)
    by (unfold window; now rewrite Hw, Hd).
  assert (V : isVisible s = Throw "TypeError: Object has been destroyed" s)
    by (unfold isVisible; now rewrite (bind_Throw _ _ _ _ _ E)).
  repeat split.
  - unfold tray_click. now rewrite (bind_Throw _ _ _ _ _ V).
  - unfold close. now rewrite (bind_Throw _ _ _ _ _ E).
  - unfold on_second_instance. unfold bind at 1, read. rewrite Hw.
    unfold isMinimized. unfold bind at 1. now rewrite (bind_Throw _ _ _ _ _ E).
  - unfold menu_click. now rewrite (bind_Throw _ _ _ _ _ V).
Qed.

Lemma destroyed_window_throws_witness :
  let s := run darwin_process (ready darwin_process plain_config) [CloseButton] in
  let w := mkWindow (JS.Bool true) false false false false true in
  exited s = false ∧ mainWindow s = Some w ∧ destroyed w = true ∧
  tray_click s = Throw "TypeError: Object has been destroyed" s ∧
  close darwin_process s = Throw "TypeError: Object has been destroyed" s ∧
  on_second_instance s = Throw "TypeError: Object has been destroyed" s ∧
  menu_click ToggleClick s = Throw "TypeError: Object has been destroyed" s.
Proof.
  intros s w. split; [reflexivity|]. split; [reflexivity|]. split; [reflexivity|].
  apply (destroyed_window_throws darwin_process s w); reflexivity.
Defined.

(** ** The tray menu's items (lines 165-189) *)

Lemma App_quit_alive (s : State) (w : BrowserWindow) :
  mainWindow s = Some w → destroyed w = false → intercepts s = false →
  App_quit s =
    Ok () (exited_after [AppQuit; AppExit] (set_mainWindow (Some (with_destroyed w)) s)).
Proof.
  intros Hw Hd Hi. unfold App_quit.
  unfold call at 1. erewrite bind_Ok by reflexivity.
  unfold bind at 1, read. cbn [mainWindow set_calls]. rewrite Hw, Hd.
  unfold bind at 1. rewrite (on_close_Ok _ w); [|exact Hw|exact Hd].
  replace (intercepts _) with false by (symmetry; exact Hi). cbn [defaultPrevented].
  erewrite bind_Ok by (apply update_window_Ok; [exact Hw|exact Hd]).
  unfold terminate, call, modify, bind, exited_after. cbn.
  now rewrite <- app_assoc.
Qed.

(** X7.  "Quit Revolt" in the tray menu is never swallowed by
    minimise-to-tray: the quit flag is set first, so whatever the
    configuration and the platform, the window is destroyed and the
    process quits and exits, without a relaunch. *)
Theorem menu_quit_exits (s : State) :
  alive s = true →
  ∃ s', menu_click QuitClick s = Ok () s' ∧
    shouldQuit s' = true ∧ alive s' = false ∧ exited s' = true ∧
    calls s' = calls s ++ [AppQuit; AppExit].
Proof.
  intros Ha. destruct (alive_window s Ha) as (w & Hw & Hd).
  unfold menu_click. erewrite bind_Ok by reflexivity.
  rewrite (App_quit_alive (set_shouldQuit true s) w Hw Hd) by reflexivity.
  eexists. split; [reflexivity|]. repeat split; reflexivity.
Qed.

Lemma menu_quit_exits_witness :
  let s := ready darwin_process sample_config in
  JS.get (config s) "minimiseToTray" = JS.Bool true ∧ alive s = true ∧
  ∃ s', menu_click QuitClick s = Ok () s' ∧
    shouldQuit s' = true ∧ alive s' = false ∧ exited s' = true ∧
    calls s' = calls s ++ [AppQuit; AppExit].
Proof.
  intros s. split; [reflexivity|]. split; [reflexivity|].
  apply (menu_quit_exits s). reflexivity.
Defined.

(** X8.  The toggle item of the tray menu inverts the visibility whatever
    the focus (unlike the tray click, which only focuses a visible window
    that lost the focus), and the menu it leaves is labelled for the new
    visibility. *)
Theorem menu_toggle_inverts (s : State) :
  alive s = true →
  ∃ s', menu_click ToggleClick s = Ok () s' ∧ alive s' = true ∧
    window_visible s' = negb (window_visible s) ∧
    toggle_item_label s' = Some (toggle_label (negb (window_visible s))).
Proof.
  intros Ha. destruct (alive_window s Ha) as (w & Hw & Hd).
  unfold menu_click. rewrite (bind_Ok _ _ _ _ _ (isVisible_Ok s w Hw Hd)).
  unfold alive, window_visible, toggle_item_label. rewrite Hw.
  destruct (visible w).
  - rewrite (hide_Ok s w Hw Hd). eexists. split; [reflexivity|]. cbn.
    rewrite Hd. repeat split; reflexivity.
  - rewrite (show_Ok s w Hw Hd). eexists. split; [reflexivity|]. cbn.
    rewrite Hd. repeat split; reflexivity.
Qed.

Lemma menu_toggle_inverts_witness :
  let s := final (update_window (with_focused false) (ready linux_process sample_config)) in
  alive s = true ∧ window_visible s = true ∧ window_focused s = false ∧
  ∃ s', menu_click ToggleClick s = Ok () s' ∧ alive s' = true ∧
    window_visible s' = negb (window_visible s) ∧
    toggle_item_label s' = Some (toggle_label (negb (window_visible s))).
Proof.
  intros s. repeat (split; [reflexivity|]).
  apply (menu_toggle_inverts s). reflexivity.
Defined.

(** X9.  Minimise-to-tray and back: after an intercepted close, one tray
    click brings the window back, visible and focused, with the menu
    offering to hide it again. *)
Theorem close_to_tray_and_back (proc : Process) (s : State) :
  alive s = true → intercepts s = true →
  let s1 := final (close proc s) in
  ∃ s2, tray_click s1 = Ok () s2 ∧ alive s2 = true ∧
    window_visible s2 = true ∧ window_focused s2 = true ∧
    toggle_item_label s2 = Some "Hide Revolt" ∧ calls s2 = calls s.
Proof.
  intros Ha Hi s1. subst s1. destruct (alive_window s Ha) as (w & Hw & Hd).
  rewrite (close_Ok proc s w Hw Hd), Hi. cbn [final].
  rewrite (tray_click_Ok _ (with_visible false false w)) by (cbn; auto).
  cbn. eexists. split; [reflexivity|].
  unfold alive. cbn. rewrite Hd. repeat split; reflexivity.
Qed.

Lemma close_to_tray_and_back_witness :
  let s := ready linux_process sample_config in
  alive s = true ∧ intercepts s = true ∧
  ∃ s2, tray_click (final (close linux_process s)) = Ok () s2 ∧ alive s2 = true ∧
    window_visible s2 = true ∧ window_focused s2 = true ∧
    toggle_item_label s2 = Some "Hide Revolt" ∧ calls s2 = calls s.
Proof.
  intros s. split; [reflexivity|]. split; [reflexivity|].
  apply (close_to_tray_and_back linux_process s); reflexivity.
Defined.

(** ** Invariants of the event loop *)

Lemma keeps_ret {A : Type} (P : State → Prop) (a : A) : keeps P (ret a).
Proof. intros s H. exact H. Qed.

Lemma keeps_throw {A : Type} (P : State → Prop) (e : string) : keeps P (@throw A e).
Proof. intros s H. exact H. Qed.

Lemma keeps_read (P : State → Prop) : keeps P read.
Proof. intros s H. exact H. Qed.

Lemma keeps_window (P : State → Prop) : keeps P window.
Proof.
  intros s H. unfold window.
  destruct (mainWindow s) as [w|]; [destruct (destroyed w)|]; exact H.
Qed.

Lemma keeps_bind {A B : Type} (P : State → Prop) (m : M A) (f : A → M B) :
  keeps P m → (∀ a, keeps P (f a)) → keeps P (bind m f).
Proof.
  intros Hm Hf s H. specialize (Hm s H). unfold bind.
  destruct (m s) as [a s'|e s']; cbn in Hm; [now apply Hf|exact Hm].
Qed.

Lemma keeps_modify (P : State → Prop) (f : State → State) :
  (∀ s, P s → P (f s)) → keeps P (modify f).
Proof. intros Hf s H. now apply Hf. Qed.

Lemma keeps_update_window (P : State → Prop) (f : BrowserWindow → BrowserWindow) :
  (∀ s w, mainWindow s = Some w → destroyed w = false → P s →
          P (set_mainWindow (Some (f w)) s)) →
  keeps P (update_window f).
Proof.
  intros Hf s H. unfold update_window, bind, window.
  destruct (mainWindow s) as [w|] eqn:Hw; [|exact H].
  destruct (destroyed w) eqn:Hd; [exact H|]. cbn. now apply Hf.
Qed.

Lemma keeps_run (P : State → Prop) (proc : Process) :
  (∀ i, keeps P (handle proc i)) →
  ∀ inputs s, P s → P (run proc s inputs).
Proof.
  intros Hh inputs. induction inputs as [|i inputs IH]; intros s H; [exact H|].
  cbn. apply IH. unfold exec. destruct (exited s); [exact H|]. now apply Hh.
Qed.

Lemma run_exited (proc : Process) (inputs : list Input) (s : State) :
  exited s = true → run proc s inputs = s.
Proof.
  induction inputs as [|i inputs IH]; intros H; [reflexivity|].
  cbn. unfold exec at 2. rewrite H. now apply IH.
Qed.

Lemma keeps_navigate (P : State → Prop) (proc : Process) (url : string) :
  (∀ s, P s → P (set_calls (calls s ++ [LoadURL url]) s)) →
  keeps P (navigate proc url).
Proof.
  intros Hl s H. rewrite navigate_final. destruct (cancelled _); [exact H|].
  now apply Hl.
Qed.

(** Unfolds a handler down to [bind], [ret], [read], [modify], [throw],
    [window], [update_window] and [navigate]. *)
Ltac unfold_handlers :=
  repeat progress unfold
    tray_click, click_item, menu_click, ipc_set, connectRPC, dropRPC,
    store_get_config, store_set_config, getConfig, ipc_reload, mainWindow_loadURL,
    ipc_relaunch, ipc_min, ipc_max, ipc_close, on_second_instance, close,
    on_close, App_quit, App_relaunch, terminate, on_window_all_closed,
    show, hide, on_show, on_hide, buildMenu, focus, minimize, restore, maximize,
    unmaximize, isVisible, isFocused, isMinimized, isMaximized,
    window_open, windowOpenHandler, setImmediate, run_immediates, call.

(** Walks through an unfolded handler and leaves, for every state update,
    the goal that the update keeps the invariant. *)
Ltac keep :=
  repeat match goal with
  | |- keeps _ (ret _) => apply keeps_ret
  | |- keeps _ (throw _) => apply keeps_throw
  | |- keeps _ read => apply keeps_read
  | |- keeps _ window => apply keeps_window
  | |- keeps _ (update_window _) => apply keeps_update_window; intros ? ? ? ? ?
  | |- keeps _ (navigate _ _) => apply keeps_navigate; intros ? ?
  | |- keeps _ (modify _) => apply keeps_modify; intros ? ?
  | |- keeps _ (bind _ _) => apply keeps_bind; [|intros ?]
  | |- keeps _ (if ?b then _ else _) => destruct b eqn:?
  | |- keeps _ (match ?x with _ => _ end) => destruct x eqn:?
  | |- keeps _ _ => progress cbv beta zeta
  end.

(** X10.  The two life-cycle flags are only ever set: whatever the event
    loop handles, a flag that is set stays set. *)
Theorem flags_never_reset (proc : Process) (s : State) (inputs : list Input) :
  Bool.le (shouldQuit s) (shouldQuit (run proc s inputs))
  ∧ Bool.le (shouldRelaunch s) (shouldRelaunch (run proc s inputs)).
Proof.
  split.
  - destruct (shouldQuit s) eqn:E; [|exact I]. cbn.
    apply (keeps_run (λ s, shouldQuit s = true) proc); [|exact E].
    intros i. destruct i; cbn [handle]; unfold_handlers; keep; cbn; assumption || reflexivity.
  - destruct (shouldRelaunch s) eqn:E; [|exact I]. cbn.
    apply (keeps_run (λ s, shouldRelaunch s = true) proc); [|exact E].
    intros i. destruct i; cbn [handle]; unfold_handlers; keep; cbn; assumption || reflexivity.
Qed.

Lemma createWindow_Ok (proc : Process) (s : State) :
  createWindow proc s =
    Ok () (set_contextMenu (template true)
            (set_calls (calls s ++ [LoadURL (getBuildURL proc)])
              (set_mainWindow
                 (Some (mkWindow (JS.get (config s) "frame") true true false false false))
                 (set_initialConfig (config s) s)))).
Proof. reflexivity. Qed.

(** X11.  What [createWindow] reads from the configuration is fixed at
    that moment: whatever the state it runs in and whatever the event loop
    handles afterwards ([set] commands included), the snapshot stays the
    configuration of that moment and the window keeps the [frame] option
    it was constructed with. *)
Theorem creation_options_frozen (proc : Process) (s : State) (inputs : list Input) :
  let s' := run proc (final (createWindow proc s)) inputs in
  initialConfig s' = config s ∧
  frame <$> mainWindow s' = Some (JS.get (config s) "frame").
Proof.
  intros s'. subst s'.
  apply (keeps_run (λ s', initialConfig s' = config s ∧
                          frame <$> mainWindow s' = Some (JS.get (config s) "frame")) proc).
  - intros i. destruct i; cbn [handle]; unfold_handlers; keep; cbn;
      try assumption;
      match goal with
      | Hw : mainWindow ?s0 = Some ?w, H : _ ∧ frame <$> mainWindow ?s0 = _ |- _ =>
          destruct H as [H1 H2]; rewrite Hw in H2; cbn in H2; split; assumption
      end.
  - rewrite createWindow_Ok. split; reflexivity.
Qed.

Example frame_patch_waits_for_next_window :
  let s := run darwin_process (ready darwin_process plain_config)
             [IpcSet {["frame" := JS.Bool false]}] in
  frame <$> mainWindow s = Some (JS.Bool true) ∧
  frame <$> mainWindow (final (createWindow darwin_process s)) = Some (JS.Bool false).
Proof. split; reflexivity. Qed.

(** *** The navigation policy over whole runs *)

Lemma policy_call (proc : Process) (c : Call) (s : State) :
  allowed c = true → load_allowed proc c = true → policy_respected proc s →
  policy_respected proc (set_calls (calls s ++ [c]) s).
Proof.
  intros Hc Hl [H1 H2]. split; [|exact H2]. cbn.
  apply Forall_app. split; [exact H1|]. now repeat constructor.
Qed.

Lemma policy_window_open (proc : Process) (url : string) :
  keeps (policy_respected proc) (window_open url).
Proof.
  intros s [H1 H2]. unfold window_open.
  rewrite (bind_Ok _ _ _ _ _ (windowOpenHandler_Ok url s)). cbn.
  destruct (external_scheme url) eqn:E; [|now split].
  split; [exact H1|]. cbn. apply Forall_app. split; [exact H2|]. now constructor.
Qed.

Lemma policy_run_immediates (proc : Process) :
  keeps (policy_respected proc) run_immediates.
Proof.
  intros s [H1 H2]. split; cbn; [|constructor].
  apply Forall_app. split; [exact H1|].
  apply Forall_fmap. eapply Forall_impl; [exact H2|]. intros url H. now split.
Qed.

Lemma policy_navigate (proc : Process) (url : string) :
  keeps (policy_respected proc) (navigate proc url).
Proof.
  intros s H. rewrite navigate_final.
  destruct (cancelled _) eqn:Hc; [exact H|].
  apply policy_call; [reflexivity| |exact H]. cbn.
  apply orb_true_iff. right. unfold not_prevented.
  destruct (URL.parse url) as [u|] eqn:Hu; [|reflexivity].
  rewrite (will_navigate_Ok proc _ url u s Hu) in Hc.
  destruct (String.eqb (URL.origin u) (getBuildURL proc)); [reflexivity|discriminate].
Qed.

Lemma policy_handle (proc : Process) (i : Input) :
  keeps (policy_respected proc) (handle proc i).
Proof.
  destruct i; cbn [handle];
    try apply policy_window_open; try apply policy_run_immediates;
    try apply policy_navigate;
    unfold_handlers; keep;
    try (apply policy_call; [reflexivity|reflexivity|]);
    try assumption;
    try (match goal with H : policy_respected _ _ |- _ => destruct H; split; assumption end).
  all: apply policy_call; [reflexivity| |assumption]; cbn; now rewrite String.eqb_refl.
Qed.

Lemma policy_run (proc : Process) (cfg : JS.object) (inputs : list Input) :
  policy_respected proc (run proc (ready proc cfg) inputs).
Proof.
  apply (keeps_run (policy_respected proc) proc (policy_handle proc)).
  split; cbn; [|constructor].
  repeat constructor. cbn. now rewrite String.eqb_refl.
Qed.

(** X12.  Over any run of the event loop after [createWindow], no window
    is ever created for a page's request, and every URL handed to
    [shell.openExternal] begins with [http:], [https:] or [mailto:]. *)
Theorem external_opens_over_runs (proc : Process) (cfg : JS.object) (inputs : list Input) :
  Forall (λ c, allowed c = true) (calls (run proc (ready proc cfg) inputs)).
Proof.
  eapply Forall_impl; [apply (policy_run proc cfg inputs)|]. now intros c [H _].
Qed.

(** X13.  Over any run of the event loop after [createWindow], the window
    only loads the build URL itself ([createWindow], [reload]) or a
    navigation target on which the listener did not call
    [preventDefault]: one whose origin is the build URL string, or one
    [new URL] rejects, where the listener throws before it can prevent. *)
Theorem loads_over_runs (proc : Process) (cfg : JS.object) (inputs : list Input) :
  Forall (λ c, load_allowed proc c = true) (calls (run proc (ready proc cfg) inputs)).
Proof.
  eapply Forall_impl; [apply (policy_run proc cfg inputs)|]. now intros c [_ H].
Qed.

Example navigation_listener_throws :
  calls (run linux_process (ready linux_process sample_config) [Navigate "/channel/1"]) =
    [LoadURL "https://app.revolt.chat"; LoadURL "/channel/1"].
Proof. reflexivity. Qed.

Example navigation_blob_of_build_origin :
  calls (run linux_process (ready linux_process sample_config)
           [Navigate "blob:https://app.revolt.chat/0b2f"; Navigate "blob:https://evil.example/0b2f"]) =
    [LoadURL "https://app.revolt.chat"; LoadURL "blob:https://app.revolt.chat/0b2f"].
Proof. reflexivity. Qed.

Example policy_sample :
  calls (run linux_process (ready linux_process sample_config)
           [ WindowOpen "javascript:alert(1)"; WindowOpen "mailto:a@b.c";
             Navigate "https://evil.example/"; Navigate "https://app.revolt.chat/invite/x";
             Tick; IpcReload ]) =
    [ LoadURL "https://app.revolt.chat"; LoadURL "https://app.revolt.chat/invite/x";
      OpenExternal "mailto:a@b.c"; LoadURL "https://app.revolt.chat" ].
Proof. reflexivity. Qed.

(** *** At most one relaunch *)

Lemma run_invariant (P : State → Prop) (proc : Process) :
  (∀ i s, exited s = false → P s → P (final (handle proc i s))) →
  ∀ inputs s, P s → P (run proc s inputs).
Proof.
  intros Hh inputs. induction inputs as [|i inputs IH]; intros s H; [exact H|].
  cbn. apply IH. unfold exec. destruct (exited s) eqn:E; [exact H|]. now apply Hh.
Qed.

Lemma close_not_alive (proc : Process) (s : State) :
  alive s = false → final (close proc s) = s.
Proof.
  intros Ha. destruct (window_Throw s Ha) as [e E].
  unfold close. now rewrite (bind_Throw _ _ _ _ _ E).
Qed.

Lemma close_relaunch_once (proc : Process) (s : State) :
  count_calls is_relaunch (calls s) = 0 → relaunch_once (final (close proc s)).
Proof.
  intros H0. destruct (alive s) eqn:Ha.
  - destruct (alive_window s Ha) as (w & Hw & Hd).
    rewrite (close_Ok proc s w Hw Hd).
    destruct (intercepts s); [now left|].
    destruct (shouldRelaunch s) eqn:Hr.
    + rewrite window_all_closed_relaunch by (try exact Hr; reflexivity).
      right. cbn [final exited_after calls exited shouldRelaunch set_exited set_calls
                  set_mainWindow]. rewrite count_calls_app, H0.
      split; [reflexivity|]. split; [reflexivity|exact Hr].
    + rewrite window_all_closed_plain by (try exact Hr; reflexivity).
      left. destruct (String.eqb (platform proc) "darwin");
        cbn [final exited_after calls set_exited set_calls set_mainWindow]; [exact H0|].
      now rewrite count_calls_app, H0.
  - rewrite (close_not_alive proc s Ha). now left.
Qed.

Lemma no_relaunch_in_opens (l : list string) :
  length (List.filter is_relaunch (OpenExternal <$> l)) = 0.
Proof. induction l as [|u l IH]; [reflexivity|exact IH]. Qed.

Lemma no_relaunch_elsewhere (proc : Process) (i : Input) :
  match i with
  | CloseButton | IpcClose | IpcRelaunch => True
  | _ => keeps (λ s, count_calls is_relaunch (calls s) = 0) (handle proc i)
  end.
Proof.
  destruct i; try exact I; cbn [handle]; unfold_handlers; keep;
    unfold count_calls in *; cbn;
    rewrite ?List.filter_app, ?length_app, ?no_relaunch_in_opens; cbn;
    try assumption; lia.
Qed.

(** X14.  Over any run of the event loop after [createWindow] a relaunch
    is requested at most once, and when it was the relaunch flag is set and
    the process has exited. *)
Theorem relaunch_at_most_once (proc : Process) (cfg : JS.object) (inputs : list Input) :
  let s := run proc (ready proc cfg) inputs in
  count_calls is_relaunch (calls s) = 0
  ∨ (count_calls is_relaunch (calls s) = 1 ∧ exited s = true ∧ shouldRelaunch s = true).
Proof.
  apply (run_invariant relaunch_once proc); [|now left].
  intros i s He [H0|(_ & E & _)]; [|congruence].
  pose proof (no_relaunch_elsewhere proc i) as Hi.
  destruct i; try (left; now apply Hi); cbn [handle].
  - now apply close_relaunch_once.
  - unfold ipc_relaunch. erewrite bind_Ok by reflexivity.
    now apply close_relaunch_once.
  - now apply close_relaunch_once.
Qed.

(** *** The persisted configuration over a run *)

Lemma config_only_by_set (proc : Process) (c : JS.object) (i : Input) :
  match i with
  | IpcSet _ => True
  | _ => keeps (λ s, config s = c) (handle proc i)
  end.
Proof.
  destruct i; try exact I; cbn [handle]; unfold_handlers; keep; cbn; assumption.
Qed.

(** X15.  While the process has not exited, the persisted configuration is
    the one the run started with, with the patches of the [set] commands
    spread over it in the order they arrived; no other input writes to
    it. *)
Theorem config_is_patches_applied (proc : Process) (inputs : list Input) (s : State) :
  exited (run proc s inputs) = false →
  config (run proc s inputs) = foldl JS.spread (config s) (patches inputs).
Proof.
  revert s. induction inputs as [|i inputs IH]; intros s He; [reflexivity|].
  cbn [run foldl] in *. fold (run proc (exec proc s i) inputs) in *.
  destruct (exited s) eqn:E.
  - unfold exec in He. rewrite E in He. rewrite run_exited in He by exact E. congruence.
  - rewrite (IH _ He). unfold exec. rewrite E.
    pose proof (config_only_by_set proc (config s) i) as Hi.
    destruct i; try (cbn [patches omap]; now rewrite Hi).
    cbn [handle]. rewrite ipc_set_Ok. reflexivity.
Qed.

Lemma config_is_patches_applied_witness :
  let inputs := [ IpcSet {["discordRPC" := JS.Bool true]}; TrayClick; CloseButton;
                  IpcSet {["frame" := JS.Bool false]}; Navigate "https://evil.example/";
                  IpcSet {["discordRPC" := JS.Bool false]} ] in
  let s := ready linux_process sample_config in
  exited (run linux_process s inputs) = false ∧
  config (run linux_process s inputs) = foldl JS.spread (config s) (patches inputs).
Proof.
  intros inputs s. split; [reflexivity|].
  apply (config_is_patches_applied linux_process inputs s). reflexivity.
Defined.

(** *** The shape of the tray menu *)

Lemma menu_shape_handle (proc : Process) (i : Input) :
  keeps (λ s, ∃ v, contextMenu s = template v) (handle proc i).
Proof.
  destruct i; cbn [handle]; unfold_handlers; keep; cbn; try assumption; eauto.
Qed.

(** X16.  Over any run after [createWindow] the tray menu is one of the two
    templates: exactly four entries, a disabled title, a separator, the
    toggle item and the quit item.  A click on the title, on the separator
    or past the end of the menu does nothing. *)
Theorem menu_shape_over_runs (proc : Process) (cfg : JS.object) (inputs : list Input) (i : nat) :
  let s := run proc (ready proc cfg) inputs in
  ∃ v, contextMenu s = template v ∧
    label <$> contextMenu s = ["Revolt"; "---"; toggle_label v; "Quit Revolt"] ∧
    click <$> contextMenu s = [NoClick; NoClick; ToggleClick; QuitClick] ∧
    click_item 0 s = Ok () s ∧ click_item 1 s = Ok () s ∧
    click_item (4 + i) s = Ok () s.
Proof.
  intros s.
  assert (H : ∃ v, contextMenu s = template v).
  { apply (keeps_run _ proc (menu_shape_handle proc)). now exists true. }
  destruct H as [v Hv]. exists v. unfold click_item, bind, read.
  rewrite Hv. repeat split; reflexivity.
Qed.

(** ** "second-instance" (lines 217-222) *)

(** X17.  A second launch while the window is shown restores it from the
    minimised state and focuses it; it creates nothing, loads nothing and
    leaves the visibility and the tray menu alone.  Before the window
    exists the listener does nothing. *)
Theorem second_instance_focuses (s : State) (cfg : JS.object) :
  alive s = true → window_visible s = true →
  (∃ s', on_second_instance s = Ok () s' ∧ alive s' = true ∧
     minimized <$> mainWindow s' = Some false ∧
     window_focused s' = true ∧ window_visible s' = true ∧
     calls s' = calls s ∧ contextMenu s' = contextMenu s)
  ∧ on_second_instance (boot cfg) = Ok () (boot cfg).
Proof.
  intros Ha Hv. split; [|reflexivity].
  destruct (alive_window s Ha) as (w & Hw & Hd).
  unfold window_visible in Hv. rewrite Hw in Hv.
  unfold on_second_instance. unfold bind at 1, read. rewrite Hw.
  unfold isMinimized. unfold bind at 1.
  rewrite (bind_Ok _ _ _ _ _ (window_Ok s w Hw Hd)). cbn [ret].
  unfold alive, window_focused, window_visible.
  destruct (minimized w) eqn:Hm.
  - unfold restore, focus. erewrite bind_Ok by (apply update_window_Ok; eauto).
    erewrite update_window_Ok by (cbn; eauto).
    eexists. split; [reflexivity|]. cbn. rewrite Hd, Hv. repeat split; reflexivity.
  - unfold focus. erewrite bind_Ok by reflexivity.
    erewrite update_window_Ok by eauto.
    eexists. split; [reflexivity|]. cbn. rewrite Hd, Hv, Hm. repeat split; reflexivity.
Qed.

Lemma second_instance_focuses_witness :
  let s := run linux_process (ready linux_process sample_config) [IpcMin; FocusLost] in
  alive s = true ∧ window_visible s = true ∧
  minimized <$> mainWindow s = Some true ∧
  (∃ s', on_second_instance s = Ok () s' ∧ alive s' = true ∧
     minimized <$> mainWindow s' = Some false ∧
     window_focused s' = true ∧ window_visible s' = true ∧
     calls s' = calls s ∧ contextMenu s' = contextMenu s)
  ∧ on_second_instance (boot sample_config) = Ok () (boot sample_config).
Proof.
  intros s. repeat (split; [reflexivity|]).
  apply (second_instance_focuses s sample_config); reflexivity.
Defined.

(** ** Start-up (lines 212-232) *)

(** X18.  Without the single-instance lock the script quits at once: the
    process exits with no window, nothing is loaded, and no later input
    changes that.  With the lock, a rejected [firstRun] leaves the process
    without a window, and a resolved one leaves the state of
    [createWindow]. *)
Theorem startup_needs_lock (proc : Process) (cfg : JS.object) (firstRun : bool)
    (inputs : list Input) :
  (let s := run proc (final (main proc false firstRun (boot cfg))) inputs in
   mainWindow s = None ∧ exited s = true ∧ calls s = [AppQuit; AppExit])
  ∧ mainWindow (final (main proc true false (boot cfg))) = None
  ∧ main proc true true (boot cfg) = Ok () (ready proc cfg).
Proof.
  split; [|split; reflexivity].
  cbn zeta. rewrite run_exited by reflexivity. repeat split; reflexivity.
Qed.

(** ** "activate" and repeated registration (lines 112-156, 228-230) *)

Lemma emit_S (n : nat) (listener : M unit) (s : State) :
  emit (S n) listener s = bind listener (λ _, emit n listener) s.
Proof. reflexivity. Qed.

Lemma spread_idemp (c arg : JS.object) :
  JS.spread (JS.spread c arg) arg = JS.spread c arg.
Proof. rewrite spread_assoc. unfold JS.spread. now rewrite (idemp_L (∪)). Qed.

Lemma emit_set (arg : JS.object) (n : nat) (s : State) :
  ∃ s', emit n (ipc_set arg) s = Ok () s' ∧
    calls s' = calls s ++
      mjoin (replicate n (rpc_calls arg ++ [StoreSet "config" (JS.spread (config s) arg)])) ∧
    config s' = match n with 0 => config s | S _ => JS.spread (config s) arg end ∧
    mainWindow s' = mainWindow s ∧ exited s' = exited s.
Proof.
  revert s. induction n as [|n IH]; intros s.
  - exists s. cbn. rewrite app_nil_r. repeat split; reflexivity.
  - rewrite emit_S, (bind_Ok _ _ _ _ _ (ipc_set_Ok arg s)).
    destruct (IH (set_config (JS.spread (config s) arg)
                    (set_calls (calls s ++ rpc_calls arg
                                  ++ [StoreSet "config" (JS.spread (config s) arg)]) s)))
      as (s' & E & Hc & Hg & Hw & He).
    exists s'. split; [exact E|]. cbn in Hc, Hg, Hw, He.
    rewrite spread_idemp in Hc, Hg. repeat split.
    + rewrite Hc. cbn. now rewrite <- !app_assoc.
    + rewrite Hg. now destruct n.
    + exact Hw.
    + exact He.
Qed.

Lemma count_calls_join (p : Call → bool) (n : nat) (l : list Call) :
  count_calls p (mjoin (replicate n l)) = n * count_calls p l.
Proof.
  induction n as [|n IH]; [reflexivity|].
  change (mjoin (replicate (S n) l)) with (l ++ mjoin (replicate n l)).
  now rewrite count_calls_app, IH.
Qed.

(** X19.  [createWindow] registers the [ipcMain] listeners again each time
    it runs, so in a session where it ran [n] times one [set] message runs
    the [set] listener [n] times: the presence-broadcast call of the patch
    is made [n] times and the configuration is written [n] times, while
    what is persisted is the same as after a single run. *)
Theorem set_runs_once_per_registration (proc : Process) (ss : Session) (arg : JS.object) :
  exited (core ss) = false →
  let ss' := session_exec proc ss (Deliver (IpcSet arg)) in
  listeners ss' = listeners ss ∧
  count_calls is_rpc (calls (core ss')) =
    count_calls is_rpc (calls (core ss))
    + listeners ss * (if JS.defined (JS.get arg "discordRPC") then 1 else 0) ∧
  count_calls is_storeSet (calls (core ss')) =
    count_calls is_storeSet (calls (core ss)) + listeners ss ∧
  config (core ss') =
    match listeners ss with
    | 0 => config (core ss)
    | S _ => JS.spread (config (core ss)) arg
    end.
Proof.
  intros He ss'. subst ss'. unfold session_exec. rewrite He.
  cbn [session_handle is_ipc handle listeners core].
  destruct (emit_set arg (listeners ss) (core ss)) as (s' & E & Hc & Hg & _ & _).
  rewrite E. cbn [final]. rewrite Hc, !count_calls_app, !count_calls_join, Hg.
  rewrite rpc_calls_spec.
  split; [reflexivity|]. split; [|split; [|reflexivity]].
  - destruct (JS.defined _); [destruct (JS.truthy _)|]; cbn; lia.
  - destruct (JS.defined _); [destruct (JS.truthy _)|]; cbn; lia.
Qed.

Lemma set_runs_once_per_registration_witness :
  let ss := session_run darwin_process (session_ready darwin_process plain_config)
              [Deliver CloseButton; Activate] in
  let arg : JS.object := {["discordRPC" := JS.Bool true]} in
  listeners ss = 2 ∧ exited (core ss) = false ∧
  let ss' := session_exec darwin_process ss (Deliver (IpcSet arg)) in
  listeners ss' = listeners ss ∧
  count_calls is_rpc (calls (core ss')) =
    count_calls is_rpc (calls (core ss))
    + listeners ss * (if JS.defined (JS.get arg "discordRPC") then 1 else 0) ∧
  count_calls is_storeSet (calls (core ss')) =
    count_calls is_storeSet (calls (core ss)) + listeners ss ∧
  config (core ss') =
    match listeners ss with
    | 0 => config (core ss)
    | S _ => JS.spread (config (core ss)) arg
    end.
Proof.
  intros ss arg. split; [reflexivity|]. split; [reflexivity|].
  apply (set_runs_once_per_registration darwin_process ss arg). reflexivity.
Defined.

Example set_after_activate :
  calls (core (session_run darwin_process (session_ready darwin_process plain_config)
                 [ Deliver CloseButton; Activate;
                   Deliver (IpcSet {["discordRPC" := JS.Bool true]}) ])) =
    [ LoadURL "https://app.revolt.chat"; LoadURL "https://app.revolt.chat";
      ConnectRPC; StoreSet "config" (<["discordRPC" := JS.Bool true]> plain_config);
      ConnectRPC; StoreSet "config" (<["discordRPC" := JS.Bool true]> plain_config) ].
Proof. vm_compute. reflexivity. Qed.

Lemma alive_or_exited_same (s s' : State) :
  alive s' = alive s → exited s' = exited s → alive_or_exited s → alive_or_exited s'.
Proof. unfold alive_or_exited. intros -> ->. auto. Qed.

Ltac same_alive :=
  eapply alive_or_exited_same; [ | |eassumption];
  unfold alive; cbn;
  repeat match goal with H : mainWindow _ = Some _ |- _ => rewrite H end;
  cbn; congruence.

Lemma alive_or_exited_App_quit : keeps alive_or_exited App_quit.
Proof.
  intros s _. destruct (alive s) eqn:Ha.
  - destruct (alive_window s Ha) as (w & Hw & Hd).
    destruct (intercepts s) eqn:Hi.
    + unfold App_quit. unfold call at 1. erewrite bind_Ok by reflexivity.
      unfold bind at 1, read. cbn [mainWindow set_calls]. rewrite Hw, Hd.
      unfold bind at 1. rewrite (on_close_Ok _ w); [|exact Hw|exact Hd].
      replace (intercepts _) with true by (symmetry; exact Hi). cbn.
      left. unfold alive. cbn. now rewrite Hd.
    + rewrite (App_quit_alive s w Hw Hd Hi). now right.
  - rewrite (App_quit_gone s Ha). now right.
Qed.

Lemma alive_or_exited_close (proc : Process) :
  String.eqb (platform proc) "darwin" = false →
  keeps alive_or_exited (close proc).
Proof.
  intros Hp s H. destruct (alive s) eqn:Ha.
  - destruct (alive_window s Ha) as (w & Hw & Hd).
    rewrite (close_Ok proc s w Hw Hd).
    destruct (intercepts s).
    + left. unfold alive. cbn. now rewrite Hd.
    + destruct (shouldRelaunch s) eqn:Hr.
      * rewrite window_all_closed_relaunch by (try exact Hr; reflexivity). now right.
      * rewrite window_all_closed_plain by (try exact Hr; reflexivity).
        rewrite Hp. now right.
  - now rewrite (close_not_alive proc s Ha).
Qed.

Lemma alive_or_exited_handle (proc : Process) (i : Input) :
  String.eqb (platform proc) "darwin" = false →
  keeps alive_or_exited (handle proc i).
Proof.
  intros Hp.
  assert (Hq : keeps alive_or_exited (modify (set_shouldQuit true);; App_quit)).
  { apply keeps_bind; [|intros _; apply alive_or_exited_App_quit].
    apply keeps_modify. intros s H. exact H. }
  destruct i; cbn [handle];
    try (apply alive_or_exited_close; exact Hp).
  - unfold tray_click, show, hide, on_show, on_hide, buildMenu, focus, isVisible,
      isFocused. keep; same_alive.
  - unfold click_item. apply keeps_bind; [apply keeps_read|]. intros a.
    destruct (contextMenu a !! i) as [item|]; [|apply keeps_ret].
    destruct (enabled item); [|apply keeps_ret].
    destruct (click item); [apply keeps_ret| |exact Hq].
    unfold menu_click, show, hide, on_show, on_hide, buildMenu, isVisible.
    keep; same_alive.
  - unfold ipc_set, connectRPC, dropRPC, store_get_config, store_set_config, call.
    keep; assumption.
  - unfold ipc_reload, mainWindow_loadURL, call. keep; assumption.
  - unfold ipc_relaunch. apply keeps_bind; [|intros _; apply alive_or_exited_close; exact Hp].
    apply keeps_modify. intros s H. exact H.
  - unfold ipc_min, minimize. keep; same_alive.
  - unfold ipc_max, isMaximized, maximize, unmaximize.
    keep; same_alive.
  - unfold on_second_instance, isMinimized, restore, focus.
    keep; same_alive.
  - unfold focus. keep; same_alive.
  - keep; same_alive.
  - keep; assumption.
  - unfold window_open, windowOpenHandler, setImmediate, call. keep; assumption.
  - unfold run_immediates. keep. assumption.
Qed.

(** X20.  On every platform but [darwin] the [ipcMain] listeners are
    registered exactly once over the whole life of the process: a window
    that is destroyed takes the process with it, so "activate" never finds
    the window gone and never runs [createWindow] again. *)
Theorem listeners_once_off_darwin (proc : Process) (cfg : JS.object)
    (inputs : list SessionInput) :
  String.eqb (platform proc) "darwin" = false →
  listeners (session_run proc (session_ready proc cfg) inputs) = 1.
Proof.
  intros Hp.
  enough (H : ∀ ss, listeners ss = 1 ∧ alive_or_exited (core ss) →
              listeners (session_run proc ss inputs) = 1
              ∧ alive_or_exited (core (session_run proc ss inputs))).
  { apply H. split; [reflexivity|]. now left. }
  induction inputs as [|i inputs IH]; intros ss [Hl Hq]; [now split|].
  cbn. apply IH. unfold session_exec.
  destruct (exited (core ss)) eqn:He; [now split|].
  destruct i as [|i].
  - unfold on_activate. destruct Hq as [Ha|Hx]; [|congruence]. rewrite Ha.
    split; [exact Hl|left; exact Ha].
  - cbn [listeners core]. split; [exact Hl|].
    unfold session_handle. rewrite Hl.
    destruct (is_ipc i).
    + change (emit 1 (handle proc i)) with (bind (handle proc i) (λ _, ret ())).
      exact (keeps_bind alive_or_exited (handle proc i) (λ _, ret ())
               (alive_or_exited_handle proc i Hp) (λ _, keeps_ret _ ()) (core ss) Hq).
    + now apply alive_or_exited_handle.
Qed.

Lemma listeners_once_off_darwin_witness :
  String.eqb (platform linux_process) "darwin" = false ∧
  listeners (session_run linux_process (session_ready linux_process plain_config)
               [Deliver CloseButton; Activate; Deliver TrayClick; Activate]) = 1.
Proof.
  split; [reflexivity|].
  apply (listeners_once_off_darwin linux_process plain_config). reflexivity.
Defined.
